(** * prefixed-api-key: generation, parsing and verification of API keys

    A shallow embedding of [src/index.ts] (the functions [checkAPIKey],
    [extractLongToken], [extractLongTokenHash], [extractShortToken],
    [generateAPIKey], [getTokenComponents] and [hashLongToken]) together with
    functional models of the library calls the module relies on
    ([String.prototype.split] and [slice], [Array.prototype.slice], lodash's
    [padStart], [bs58.encode], node's [randomBytes] and
    [createHash("sha256")]).

    Conventions.
    - A JavaScript string is a Rocq [string]; every string the module builds
      is ASCII, where code units, characters and UTF-8 bytes coincide.
    - A JavaScript number is its exact rational value, or NaN, or an
      infinity ([JS.number]); the zero of either sign is the rational 0.
    - The entropy source is a pool of bytes threaded through the
      computation: [randomBytes n] removes [n] bytes from the front of the
      pool and fails when the pool is too short.
    - An [async] function is a computation that ends in [Ok v] (the promise
      is fulfilled with [v]) or in [Throw e] (it is rejected with [e]). *)

From Stdlib Require Import ZArith QArith Qround List String Ascii Bool Lia.
From Stdlib Require Import Strings.Byte.
Import ListNotations.

Local Open Scope string_scope.
Local Open Scope Z_scope.

(** ** Strings *)

Module Str.

Fixpoint take (n : nat) (s : string) : string :=
  match n, s with
  | O, _ => EmptyString
  | S _, EmptyString => EmptyString
  | S n', String c s' => String c (take n' s')
  end.

Fixpoint drop (n : nat) (s : string) : string :=
  match n, s with
  | O, _ => s
  | S _, EmptyString => EmptyString
  | S n', String _ s' => drop n' s'
  end.

Fixpoint repeat (c : ascii) (n : nat) : string :=
  match n with
  | O => EmptyString
  | S n' => String c (repeat c n')
  end.

Fixpoint forallb (p : ascii -> bool) (s : string) : bool :=
  match s with
  | EmptyString => true
  | String c s' => p c && forallb p s'
  end.

Fixpoint count (c : ascii) (s : string) : nat :=
  match s with
  | EmptyString => O
  | String d s' => (if Ascii.eqb d c then 1 else 0) + count c s'
  end.

Definition is_empty (s : string) : bool :=
  match s with
  | EmptyString => true
  | String _ _ => false
  end.

(** [free c s]: the character [c] does not occur in [s]. *)
Definition free (c : ascii) (s : string) : bool :=
  forallb (fun d => negb (Ascii.eqb d c)) s.

(** [starts_with p s]: [p] is a prefix of [s]. *)
Fixpoint starts_with (p s : string) : bool :=
  match p, s with
  | EmptyString, _ => true
  | String a p', String b s' => Ascii.eqb a b && starts_with p' s'
  | String _ _, EmptyString => false
  end.

End Str.

(** ** JavaScript values and the built-ins the module calls *)

Module JS.

Inductive number : Type :=
| NaN
| Infinity (negative : bool)
| Finite (q : Q).

#[warnings="-register-all"]
Inductive value : Type :=
| VUndefined
| VNull
| VBool (b : bool)
| VNum (n : number)
| VStr (s : string)
| VObject (props : list (string * value)).

Definition num (z : Z) : value := VNum (Finite (inject_Z z)).

Inductive type_tag : Type :=
| TUndefined | TObject | TBoolean | TNumber | TString.

(** [typeof v] *)
Definition typeof (v : value) : type_tag :=
  match v with
  | VUndefined => TUndefined
  | VNull => TObject
  | VBool _ => TBoolean
  | VNum _ => TNumber
  | VStr _ => TString
  | VObject _ => TObject
  end.

Definition is_zero (q : Q) : bool := Qeq_bool q 0.

(** ToBoolean: [undefined], [null], [false], [0], [NaN] and [""] are falsy. *)
Definition truthy (v : value) : bool :=
  match v with
  | VUndefined | VNull => false
  | VBool b => b
  | VNum NaN => false
  | VNum (Infinity _) => true
  | VNum (Finite q) => negb (is_zero q)
  | VStr s => negb (Str.is_empty s)
  | VObject _ => true
  end.

(** [a < b] on numbers; a comparison with NaN is false. *)
Definition lt (a b : number) : bool :=
  match a, b with
  | NaN, _ | _, NaN => false
  | Infinity true, Infinity true => false
  | Infinity true, _ => true
  | _, Infinity true => false
  | Infinity false, _ => false
  | Finite _, Infinity false => true
  | Finite p, Finite q => negb (Qle_bool q p)
  end.

(** [a > b] *)
Definition gt (a b : number) : bool := lt b a.

(** [v ?? d]: the default replaces [undefined] and [null] only. *)
Definition nullish_or (v d : value) : value :=
  match v with
  | VUndefined | VNull => d
  | _ => v
  end.

Fixpoint lookup (k : string) (props : list (string * value)) : value :=
  match props with
  | [] => VUndefined
  | (k', v) :: rest => if String.eqb k k' then v else lookup k rest
  end.

(** [o.k] for [o] that is neither [undefined] nor [null]: an own property of
    an object, [undefined] otherwise (no primitive wrapper has a property
    named like one of the option fields). *)
Definition get (o : value) (k : string) : value :=
  match o with
  | VObject props => lookup k props
  | _ => VUndefined
  end.

(** Truncation of a rational toward zero. *)
Definition trunc (q : Q) : Z := Z.quot (Qnum q) (Zpos (Qden q)).

(** ToNumber, on the values that reach a numeric conversion in this module:
    a length option is compared only behind its [typeof] test, and it is
    padded and sliced with only after [randomBytes] accepted it, when it is
    [undefined], [null] or a number (lemma [drawn_length_shape]).  Numeric
    strings are not parsed and an object is not converted to a primitive. *)
Definition ToNumber (v : value) : number :=
  match v with
  | VUndefined => NaN
  | VNull => Finite 0
  | VBool b => Finite (if b then 1 else 0)
  | VNum n => n
  | VStr s => if Str.is_empty s then Finite 0 else NaN
  | VObject _ => NaN
  end.

(** ToString, on the values that are interpolated or matched in this
    module: strings (lemma [accepted_prefixes]). *)
Definition ToString (v : value) : string :=
  match v with
  | VStr s => s
  | _ => EmptyString
  end.

(** [re.test(v)], the regular expression given as a predicate on strings. *)
Definition RegExp_test (re : string -> bool) (v : value) : bool :=
  re (ToString v).

Inductive integer_or_infinity : Type :=
| MinusInf
| Int (z : Z)
| PlusInf.

(** ToIntegerOrInfinity *)
Definition ToIntegerOrInfinity (v : value) : integer_or_infinity :=
  match ToNumber v with
  | NaN => Int 0
  | Infinity true => MinusInf
  | Infinity false => PlusInf
  | Finite q => Int (trunc q)
  end.

(** The clamping of a relative index into [0, len], as [slice] does it. *)
Definition relative (len : Z) (i : integer_or_infinity) : Z :=
  match i with
  | MinusInf => 0
  | Int z => if z <? 0 then Z.max (len + z) 0 else Z.min z len
  | PlusInf => len
  end.

(** [s.split(sep)] for a separator of one character. *)
Fixpoint split (sep : ascii) (s : string) : list string :=
  match s with
  | EmptyString => [EmptyString]
  | String c rest =>
      if Ascii.eqb c sep then EmptyString :: split sep rest
      else match split sep rest with
           | seg :: segs => String c seg :: segs
           | [] => [String c EmptyString]
           end
  end.

(** [arr.slice(start, end)]; [end_ = None] is an omitted [end]. *)
Definition Array_slice {A : Type} (arr : list A) (start : Z) (end_ : option Z)
  : list A :=
  let len := Z.of_nat (List.length arr) in
  let k := relative len (Int start) in
  let final := match end_ with
               | None => len
               | Some e => relative len (Int e)
               end in
  firstn (Z.to_nat (final - k)) (skipn (Z.to_nat k) arr).

(** [arr[0]] *)
Definition first {A : Type} (arr : list A) : option A :=
  match arr with
  | [] => None
  | x :: _ => Some x
  end.

(** [s.slice(start, end)]; an [undefined] end is the length of [s]. *)
Definition String_slice (s : string) (start : Z) (end_ : value) : string :=
  let len := Z.of_nat (String.length s) in
  let from := relative len (Int start) in
  let to := match end_ with
            | VUndefined => len
            | _ => relative len (ToIntegerOrInfinity end_)
            end in
  Str.take (Z.to_nat (to - from)) (Str.drop (Z.to_nat from) s).

(** The character classes of the two regular expressions. *)
Definition lower_or_digit (c : ascii) : bool :=
  let n := nat_of_ascii c in
  ((97 <=? n) && (n <=? 122) || (48 <=? n) && (n <=? 57))%nat.

Definition lower_digit_or_underscore (c : ascii) : bool :=
  lower_or_digit c || Ascii.eqb c "_".

(** [/^[a-z0-9_]+$/.test(s)] *)
Definition test_key_prefix (s : string) : bool :=
  negb (Str.is_empty s) && Str.forallb lower_digit_or_underscore s.

(** [/^[a-z0-9]+$/.test(s)] *)
Definition test_short_prefix (s : string) : bool :=
  negb (Str.is_empty s) && Str.forallb lower_or_digit s.

End JS.

(** ** lodash [padStart] *)

Module Lodash.

(** [MAX_INTEGER], the largest finite double: lodash's [toFinite] maps an
    infinity to it. *)
Definition MAX_INTEGER : Z := 2 ^ 1024 - 2 ^ 971.

(** [toInteger(v)]: falsy values and NaN become 0, a number loses its
    fractional part. *)
Definition toInteger (v : JS.value) : Z :=
  if negb (JS.truthy v) then 0
  else match JS.ToNumber v with
       | JS.NaN => 0
       | JS.Infinity negative => if negative then - MAX_INTEGER else MAX_INTEGER
       | JS.Finite q => JS.trunc q
       end.

(** [padStart(string, length, chars)] for [chars] of one character. *)
Definition padStart (s : string) (length : JS.value) (chars : ascii) : string :=
  let length := toInteger length in
  let strLength := if length =? 0 then 0 else Z.of_nat (String.length s) in
  if negb (length =? 0) && (strLength <? length)
  then Str.repeat chars (Z.to_nat (length - strLength)) ++ s
  else s.

End Lodash.

(** ** [bs58.encode] *)

Module Bs58.

Definition ALPHABET : string :=
  "123456789ABCDEFGHJKLMNPQRSTUVWXYZabcdefghijkmnopqrstuvwxyz".

Definition BASE : Z := 58.

Definition LEADER : ascii := "1".

(** [ALPHABET.charAt(d)]: a string of one character, empty out of range. *)
Definition charAt (d : Z) : string :=
  if d <? 0 then EmptyString
  else match String.get (Z.to_nat d) ALPHABET with
       | Some c => String c EmptyString
       | None => EmptyString
       end.

(** Skip and count the leading zero bytes. *)
Fixpoint skip_zeroes (source : list byte) : nat * list byte :=
  match source with
  | x00 :: rest => let (zeroes, tail) := skip_zeroes rest in (S zeroes, tail)
  | _ => (O, source)
  end.

(** One step "b58 = b58 * 256 + ch" on the base-58 digits, least
    significant digit first.  The carry out of the last digit is below
    58 * 58 and is written as at most two further digits. *)
Fixpoint mul_add (b58 : list Z) (carry : Z) : list Z :=
  match b58 with
  | [] =>
      if carry =? 0 then []
      else if carry <? BASE then [carry]
      else [carry mod BASE; carry / BASE]
  | d :: ds =>
      let carry := carry + 256 * d in
      (carry mod BASE) :: mul_add ds (carry / BASE)
  end.

Definition byte_value (b : byte) : Z := Z.of_N (Byte.to_N b).

(** The base-58 digits of the big-endian number [source], least significant
    first, without leading zero digit. *)
Definition digits (source : list byte) : list Z :=
  fold_left (fun b58 ch => mul_add b58 (byte_value ch)) source [].

Fixpoint translate (b58 : list Z) : string :=
  match b58 with
  | [] => EmptyString
  | d :: ds => charAt d ++ translate ds
  end.

(** [bs58.encode(source)]: one leader per leading zero byte, then the
    base-58 digits of the remaining bytes, most significant first. *)
Definition encode (source : list byte) : string :=
  let (zeroes, tail) := skip_zeroes source in
  Str.repeat LEADER zeroes ++ translate (rev (digits tail)).

End Bs58.

(** ** SHA-256 (FIPS 180-4) and its lower-case hexadecimal digest *)

Module Sha256.

Definition mask32 (x : Z) : Z := x mod 2 ^ 32.

Definition add32 (x y : Z) : Z := mask32 (x + y).

Definition rotr (n x : Z) : Z :=
  Z.lor (Z.shiftr x n) (mask32 (Z.shiftl x (32 - n))).

Definition Ch (x y z : Z) : Z :=
  Z.lxor (Z.land x y) (Z.land (mask32 (Z.lnot x)) z).

Definition Maj (x y z : Z) : Z :=
  Z.lxor (Z.lxor (Z.land x y) (Z.land x z)) (Z.land y z).

Definition Sigma0 (x : Z) : Z :=
  Z.lxor (Z.lxor (rotr 2 x) (rotr 13 x)) (rotr 22 x).

Definition Sigma1 (x : Z) : Z :=
  Z.lxor (Z.lxor (rotr 6 x) (rotr 11 x)) (rotr 25 x).

Definition sigma0 (x : Z) : Z :=
  Z.lxor (Z.lxor (rotr 7 x) (rotr 18 x)) (Z.shiftr x 3).

Definition sigma1 (x : Z) : Z :=
  Z.lxor (Z.lxor (rotr 17 x) (rotr 19 x)) (Z.shiftr x 10).

(** The first 64 primes. *)
Definition primes : list Z :=
  [2; 3; 5; 7; 11; 13; 17; 19; 23; 29; 31; 37; 41; 43; 47; 53;
   59; 61; 67; 71; 73; 79; 83; 89; 97; 101; 103; 107; 109; 113; 127; 131;
   137; 139; 149; 151; 157; 163; 167; 173; 179; 181; 191; 193; 197; 199;
   211; 223; 227; 229; 233; 239; 241; 251; 257; 263; 269; 271; 277; 281;
   283; 293; 307; 311].

(** The integer cube root below [2 ^ bits], found bit by bit from the top. *)
Fixpoint cube_root (bits : nat) (n r : Z) : Z :=
  match bits with
  | O => r
  | S i =>
      let r' := r + 2 ^ Z.of_nat i in
      cube_root i n (if r' * r' * r' <=? n then r' else r)
  end.

(** The first 32 bits of the fractional part of the cube root, respectively
    of the square root, of [p]. *)
Definition cube_root_bits (p : Z) : Z := mask32 (cube_root 36 (p * 2 ^ 96) 0).

Definition square_root_bits (p : Z) : Z := mask32 (Z.sqrt (p * 2 ^ 64)).

(** The round constants: one for each of the first 64 primes. *)
Definition K : list Z := Eval vm_compute in map cube_root_bits primes.

(** The eight working variables [a .. h], also the hash value. *)
Record state : Type := State {
  va : Z; vb : Z; vc : Z; vd : Z; ve : Z; vf : Z; vg : Z; vh : Z
}.

(** The initial hash value: one word for each of the first 8 primes. *)
Definition H0 : state :=
  Eval vm_compute in
    State (square_root_bits 2) (square_root_bits 3) (square_root_bits 5)
          (square_root_bits 7) (square_root_bits 11) (square_root_bits 13)
          (square_root_bits 17) (square_root_bits 19).

Definition round (s : state) (kw : Z * Z) : state :=
  let (k, w) := kw in
  let T1 := add32 (add32 (add32 (add32 (vh s) (Sigma1 (ve s)))
                                (Ch (ve s) (vf s) (vg s))) k) w in
  let T2 := add32 (Sigma0 (va s)) (Maj (va s) (vb s) (vc s)) in
  State (add32 T1 T2) (va s) (vb s) (vc s)
        (add32 (vd s) T1) (ve s) (vf s) (vg s).

(** The message schedule, built most recent word first. *)
Fixpoint extend (n : nat) (w : list Z) : list Z :=
  match n with
  | O => w
  | S n' =>
      let next := add32 (add32 (add32 (sigma1 (nth 1 w 0)) (nth 6 w 0))
                               (sigma0 (nth 14 w 0))) (nth 15 w 0) in
      extend n' (next :: w)
  end.

Definition schedule (block : list Z) : list Z :=
  rev (extend 48 (rev block)).

Definition compress (H : state) (block : list Z) : state :=
  let s := fold_left round (combine K (schedule block)) H in
  State (add32 (va H) (va s)) (add32 (vb H) (vb s))
        (add32 (vc H) (vc s)) (add32 (vd H) (vd s))
        (add32 (ve H) (ve s)) (add32 (vf H) (vf s))
        (add32 (vg H) (vg s)) (add32 (vh H) (vh s)).

(** Big-endian 32-bit words of a byte sequence. *)
Fixpoint words (bytes : list Z) : list Z :=
  match bytes with
  | a :: b :: c :: d :: rest =>
      (((a * 256 + b) * 256 + c) * 256 + d) :: words rest
  | _ => []
  end.

Fixpoint be_bytes (n : nat) (x : Z) : list Z :=
  match n with
  | O => []
  | S n' => be_bytes n' (x / 256) ++ [x mod 256]
  end.

(** Padding: the bit 1, zero bits up to 448 modulo 512, the bit length on
    64 bits. *)
Definition pad (message : list Z) : list Z :=
  let len := Z.of_nat (List.length message) in
  message ++ [0x80] ++ List.repeat 0 (Z.to_nat ((55 - len) mod 64))
          ++ be_bytes 8 (8 * len).

Fixpoint blocks (n : nat) (ws : list Z) (H : state) : state :=
  match n with
  | O => H
  | S n' => blocks n' (skipn 16 ws) (compress H (firstn 16 ws))
  end.

Definition digest (message : list Z) : state :=
  let ws := words (pad message) in
  blocks (List.length ws / 16) ws H0.

Definition hex_digit (x : Z) : ascii :=
  match String.get (Z.to_nat x) "0123456789abcdef" with
  | Some c => c
  | None => "0"%char
  end.

Definition nibble (w : Z) (i : Z) : ascii :=
  hex_digit (Z.land (Z.shiftr w (28 - 4 * i)) 15).

Definition hex8 (w : Z) (tail : string) : string :=
  String (nibble w 0) (String (nibble w 1) (String (nibble w 2)
  (String (nibble w 3) (String (nibble w 4) (String (nibble w 5)
  (String (nibble w 6) (String (nibble w 7) tail))))))).

Definition hex (s : state) : string :=
  hex8 (va s) (hex8 (vb s) (hex8 (vc s) (hex8 (vd s)
  (hex8 (ve s) (hex8 (vf s) (hex8 (vg s) (hex8 (vh s) EmptyString))))))).

(** The UTF-8 bytes of an ASCII string. *)
Fixpoint utf8 (s : string) : list Z :=
  match s with
  | EmptyString => []
  | String c s' => Z.of_nat (nat_of_ascii c) :: utf8 s'
  end.

(** [createHash("sha256").update(s).digest("hex")] *)
Definition hex_digest (s : string) : string := hex (digest (utf8 s)).

End Sha256.

(** ** Outcomes and the entropy pool *)

Inductive error : Type :=
| Error (message : string)   (* [throw new Error(message)] of this module *)
| NodeError (code : string)  (* an argument refused by a node built-in *)
| EntropyFailure.            (* the secure random generator failed *)

Inductive result (A : Type) : Type :=
| Ok (a : A)
| Throw (e : error).

Arguments Ok {A} a.
Arguments Throw {A} e.

Definition pool : Type := list byte.

(** A computation that may draw entropy: it ends in a value or an error and
    leaves the rest of the pool. *)
Definition M (A : Type) : Type := pool -> result A * pool.

Definition ret {A : Type} (a : A) : M A := fun p => (Ok a, p).

Definition throw {A : Type} (e : error) : M A := fun p => (Throw e, p).

Definition bind {A B : Type} (m : M A) (k : A -> M B) : M B :=
  fun p =>
    match m p with
    | (Ok a, p') => k a p'
    | (Throw e, p') => (Throw e, p')
    end.

Notation "x <- m ;; k" := (bind m (fun x => k))
  (at level 61, m at next level, right associativity).

(** [kMaxPossibleLength] of node's [randomBytes] *)
Definition kMaxPossibleLength : Z := 2 ^ 32 - 1.

(** [randomBytes(size)]: the size must be a number, not NaN, not negative
    and at most [kMaxPossibleLength]; it is converted to an unsigned integer
    ([size >>> 0]) and that many bytes are taken from the pool. *)
Definition randomBytes (size : JS.value) : M (list byte) :=
  fun p =>
    match size with
    | JS.VNum (JS.Finite q) =>
        if JS.lt (JS.Finite q) (JS.Finite 0)
           || JS.gt (JS.Finite q) (JS.Finite (inject_Z kMaxPossibleLength))
        then (Throw (NodeError "ERR_OUT_OF_RANGE"), p)
        else
          let n := Z.to_nat (JS.trunc q) in
          if (n <=? List.length p)%nat
          then (Ok (firstn n p), skipn n p)
          else (Throw EntropyFailure, p)
    | JS.VNum _ => (Throw (NodeError "ERR_OUT_OF_RANGE"), p)
    | _ => (Throw (NodeError "ERR_INVALID_ARG_TYPE"), p)
    end.

(** [await Promise.all([a, b])]: both draws are started, the first before
    the second; the result is the pair of their values, or the error of the
    first one that failed. *)
Definition Promise_all {A B : Type} (a : M A) (b : M B) : M (A * B) :=
  fun p =>
    let (ra, p1) := a p in
    let (rb, p2) := b p1 in
    (match ra, rb with
     | Ok x, Ok y => Ok (x, y)
     | Throw e, _ => Throw e
     | Ok _, Throw e => Throw e
     end, p2).

(** ** The module *)

Module APIKey.
Record t : Type := make {
  shortToken : string;
  longToken : string;
  longTokenHash : string;
  token : string
}.
End APIKey.

(** The object literal returned by [getTokenComponents]; [None] is
    [undefined]. *)
Module TokenComponents.
Record t : Type := make {
  longToken : option string;
  shortToken : option string;
  longTokenHash : string;
  token : string
}.
End TokenComponents.

Definition hashLongToken (longToken : string) : string :=
  Sha256.hex_digest longToken.

(** A call of [hashLongToken] on a value that may be [undefined]:
    [update(undefined)] throws a type error. *)
Definition call_hashLongToken (longToken : option string) : result string :=
  match longToken with
  | Some s => Ok (hashLongToken s)
  | None => Throw (NodeError "ERR_INVALID_ARG_TYPE")
  end.

Definition extractLongToken (token : string) : option string :=
  JS.first (JS.Array_slice (JS.split "_" token) (-1) None).

Definition extractShortToken (token : string) : option string :=
  JS.first (JS.Array_slice (JS.split "_" token) (-2) (Some (-1))).

Definition extractLongTokenHash (token : string) : result string :=
  call_hashLongToken (extractLongToken token).

Definition checkAPIKey (token expectedLongTokenHash : string) : result bool :=
  match call_hashLongToken (extractLongToken token) with
  | Ok h => Ok (String.eqb h expectedLongTokenHash)
  | Throw e => Throw e
  end.

Definition getTokenComponents (token : string) : result TokenComponents.t :=
  let longToken := extractLongToken token in
  match call_hashLongToken longToken with
  | Ok h =>
      Ok {| TokenComponents.longToken := longToken;
            TokenComponents.shortToken := extractShortToken token;
            TokenComponents.longTokenHash := h;
            TokenComponents.token := token |}
  | Throw e => Throw e
  end.

Definition msg_options : string := "options object is required".

Definition msg_keyPrefix : string :=
  "keyPrefix is required and must only contain lowercase letters and numbers (a-z), or underscore (_)".

Definition msg_shortTokenPrefix : string :=
  "shortTokenPrefix must only contain lowercase letters and numbers".

Definition msg_shortTokenLength : string :=
  "shortTokenLength must be a number between 4 and 24".

Definition msg_longTokenLength : string :=
  "longTokenLength must be a number between 4 and 24".

Definition is_string (v : JS.value) : bool :=
  match JS.typeof v with JS.TString => true | _ => false end.

Definition is_number (v : JS.value) : bool :=
  match JS.typeof v with JS.TNumber => true | _ => false end.

(** The condition of the [keyPrefix] check. *)
Definition bad_keyPrefix (keyPrefix : JS.value) : bool :=
  negb (JS.truthy keyPrefix)
  || negb (is_string keyPrefix)
  || negb (JS.RegExp_test JS.test_key_prefix keyPrefix).

(** The condition of the [shortTokenPrefix] check. *)
Definition bad_shortTokenPrefix (shortTokenPrefix : JS.value) : bool :=
  JS.truthy shortTokenPrefix
  && (negb (is_string shortTokenPrefix)
      || negb (JS.RegExp_test JS.test_short_prefix shortTokenPrefix)).

(** The condition of the [shortTokenLength] and [longTokenLength] checks. *)
Definition bad_length (length : JS.value) : bool :=
  JS.truthy length
  && (negb (is_number length)
      || JS.lt (JS.ToNumber length) (JS.Finite 4)
      || JS.gt (JS.ToNumber length) (JS.Finite 24)).

Definition generateAPIKey (options : JS.value) : M APIKey.t :=
  if negb (JS.truthy options) then throw (Error msg_options) else
  let keyPrefix := JS.get options "keyPrefix" in
  let shortTokenPrefix := JS.get options "shortTokenPrefix" in
  let shortTokenLength := JS.get options "shortTokenLength" in
  let longTokenLength := JS.get options "longTokenLength" in
  if bad_keyPrefix keyPrefix then throw (Error msg_keyPrefix) else
  if bad_shortTokenPrefix shortTokenPrefix
  then throw (Error msg_shortTokenPrefix) else
  if bad_length shortTokenLength then throw (Error msg_shortTokenLength) else
  if bad_length longTokenLength then throw (Error msg_longTokenLength) else
  bytes <- Promise_all
             (randomBytes (JS.nullish_or shortTokenLength (JS.num 8)))
             (randomBytes (JS.nullish_or longTokenLength (JS.num 24))) ;;
  let (shortTokenBytes, longTokenBytes) := bytes : list byte * list byte in
  let shortToken :=
    JS.String_slice
      (Lodash.padStart (Bs58.encode shortTokenBytes) shortTokenLength "0")
      0 shortTokenLength in
  let longToken :=
    JS.String_slice
      (Lodash.padStart (Bs58.encode longTokenBytes) longTokenLength "0")
      0 longTokenLength in
  let longTokenHash := hashLongToken longToken in
  let shortToken :=
    JS.String_slice
      (JS.ToString (if JS.truthy shortTokenPrefix then shortTokenPrefix
                    else JS.VStr "")
       ++ shortToken)
      0 shortTokenLength in
  let token := JS.ToString keyPrefix ++ "_" ++ shortToken ++ "_" ++ longToken in
  ret {| APIKey.shortToken := shortToken;
         APIKey.longToken := longToken;
         APIKey.longTokenHash := longTokenHash;
         APIKey.token := token |}.

(** ** Vocabulary of the statements *)

(** A lower-case hexadecimal digit. *)
Definition is_hex (c : ascii) : bool :=
  let n := nat_of_ascii c in
  ((48 <=? n) && (n <=? 57) || (97 <=? n) && (n <=? 102))%nat.

(** The four checks of [generateAPIKey] that come after the one of the
    options object itself. *)
Definition fields_ok (options : JS.value) : bool :=
  negb (bad_keyPrefix (JS.get options "keyPrefix"))
  && negb (bad_shortTokenPrefix (JS.get options "shortTokenPrefix"))
  && negb (bad_length (JS.get options "shortTokenLength"))
  && negb (bad_length (JS.get options "longTokenLength")).

(** Encoded entropy, padded on the left with the character 0 and truncated,
    both to the length option as it was given. *)
Definition normalise (encoded : string) (length : JS.value) : string :=
  JS.String_slice (Lodash.padStart encoded length "0") 0 length.

(** The prefix that is put in front of the short token. *)
Definition short_prefix (options : JS.value) : string :=
  let shortTokenPrefix := JS.get options "shortTokenPrefix" in
  JS.ToString (if JS.truthy shortTokenPrefix then shortTokenPrefix
               else JS.VStr "").

(** The key that [generateAPIKey] builds from the two byte sequences. *)
Definition assemble (options : JS.value) (shortTokenBytes longTokenBytes : list byte)
  : APIKey.t :=
  let shortTokenLength := JS.get options "shortTokenLength" in
  let longTokenLength := JS.get options "longTokenLength" in
  let shortToken :=
    JS.String_slice
      (short_prefix options
       ++ normalise (Bs58.encode shortTokenBytes) shortTokenLength)
      0 shortTokenLength in
  let longToken := normalise (Bs58.encode longTokenBytes) longTokenLength in
  {| APIKey.shortToken := shortToken;
     APIKey.longToken := longToken;
     APIKey.longTokenHash := hashLongToken longToken;
     APIKey.token :=
       JS.ToString (JS.get options "keyPrefix")
       ++ "_" ++ shortToken ++ "_" ++ longToken |}.

(** The components object that is equal to a key. *)
Definition components_of (key : APIKey.t) : TokenComponents.t :=
  {| TokenComponents.longToken := Some (APIKey.longToken key);
     TokenComponents.shortToken := Some (APIKey.shortToken key);
     TokenComponents.longTokenHash := APIKey.longTokenHash key;
     TokenComponents.token := APIKey.token key |}.

(** [l] is the last segment of [t] delimited by underscores: it has no
    underscore and it is all of [t] or what follows an underscore of [t]. *)
Definition last_segment (t l : string) : Prop :=
  Str.free "_" l = true /\ (t = l \/ exists pre, t = pre ++ "_" ++ l).

(** An error raised by one of the checks of [generateAPIKey]. *)
Definition validation_error (e : error) : Prop :=
  e = Error msg_options \/ e = Error msg_keyPrefix
  \/ e = Error msg_shortTokenPrefix \/ e = Error msg_shortTokenLength
  \/ e = Error msg_longTokenLength.

(** A number given by a decimal fraction, as in [4.5 = decimal 45 10]. *)
Definition fraction (n : Z) (d : positive) : JS.value :=
  JS.VNum (JS.Finite (n # d)).

(** A key prefix that the specification rejects: absent, empty, not a
    string, or with a character outside [a-z0-9_]. *)
Definition keyPrefix_invalid (keyPrefix : JS.value) : Prop :=
  keyPrefix = JS.VUndefined
  \/ keyPrefix = JS.VStr ""
  \/ (forall s, keyPrefix <> JS.VStr s)
  \/ exists s, keyPrefix = JS.VStr s
               /\ Str.forallb JS.lower_digit_or_underscore s = false.

(** A number from 4 to 24, whole or not. *)
Definition number_in_range (v : JS.value) : bool :=
  match v with
  | JS.VNum (JS.Finite q) => Qle_bool 4 q && Qle_bool q 24
  | _ => false
  end.

(** The token of the test suite and its parts. *)
Definition known_token : string := "my_company_BRTRKFsL_51FwqftsmMDHHbJAMEXXHCgG".

Definition known_hash : string :=
  "d70d981d87b449c107327c2a2afbf00d4b58070d6ba571aac35d7ea3e7c79f37".

Definition known_components : TokenComponents.t :=
  {| TokenComponents.longToken := Some "51FwqftsmMDHHbJAMEXXHCgG";
     TokenComponents.shortToken := Some "BRTRKFsL";
     TokenComponents.longTokenHash := known_hash;
     TokenComponents.token := known_token |}.

(** Options and pools of the examples. *)
Definition options_of (fields : list (string * JS.value)) : JS.value :=
  JS.VObject (("keyPrefix", JS.VStr "my_company") :: fields).

Definition pool_ff (n : nat) : pool := List.repeat xff n.

(** The message of the first check that fails, if one does. *)
Definition validate (options : JS.value) : option string :=
  if negb (JS.truthy options) then Some msg_options else
  if bad_keyPrefix (JS.get options "keyPrefix") then Some msg_keyPrefix else
  if bad_shortTokenPrefix (JS.get options "shortTokenPrefix")
  then Some msg_shortTokenPrefix else
  if bad_length (JS.get options "shortTokenLength")
  then Some msg_shortTokenLength else
  if bad_length (JS.get options "longTokenLength")
  then Some msg_longTokenLength else None.

(** Keys generated from a pool of bytes 255: with the key prefix alone,
    with the short-token prefix of the test suite, with a short length of
    4.5, and with a prefix and both lengths. *)
Definition default_key : APIKey.t :=
  {| APIKey.shortToken := "jpXCZedGfVQ";
     APIKey.longToken := "QLbz7JHiBTspS962RLKV8GndWFwiEaqKL";
     APIKey.longTokenHash :=
       "bd9a925d5fa9a88f306b2fd60e76630bd53a4842f7e411f9882000ac29485874";
     APIKey.token :=
       "my_company_jpXCZedGfVQ_QLbz7JHiBTspS962RLKV8GndWFwiEaqKL" |}.

Definition prefixed_options : JS.value :=
  options_of [("shortTokenPrefix", JS.VStr "myprefix123")].

Definition prefixed_key : APIKey.t :=
  {| APIKey.shortToken := "myprefix123jpXCZedGfVQ";
     APIKey.longToken := "QLbz7JHiBTspS962RLKV8GndWFwiEaqKL";
     APIKey.longTokenHash :=
       "bd9a925d5fa9a88f306b2fd60e76630bd53a4842f7e411f9882000ac29485874";
     APIKey.token :=
       "my_company_myprefix123jpXCZedGfVQ_QLbz7JHiBTspS962RLKV8GndWFwiEaqKL" |}.

Definition fractional_options : JS.value :=
  options_of [("shortTokenLength", fraction 9 2)].

Definition fractional_key : APIKey.t :=
  {| APIKey.shortToken := "7YXq";
     APIKey.longToken := "QLbz7JHiBTspS962RLKV8GndWFwiEaqKL";
     APIKey.longTokenHash :=
       "bd9a925d5fa9a88f306b2fd60e76630bd53a4842f7e411f9882000ac29485874";
     APIKey.token := "my_company_7YXq_QLbz7JHiBTspS962RLKV8GndWFwiEaqKL" |}.

Definition sized_options : JS.value :=
  options_of [("shortTokenPrefix", JS.VStr "abcd");
              ("shortTokenLength", JS.num 6);
              ("longTokenLength", JS.num 24)].

Definition sized_key : APIKey.t :=
  {| APIKey.shortToken := "abcd3C";
     APIKey.longToken := "QLbz7JHiBTspS962RLKV8Gnd";
     APIKey.longTokenHash :=
       "1dae2b52614bf49923b2c5f6442695348ff440bfca1847a9bea9c1b06d7a0f39";
     APIKey.token := "my_company_abcd3C_QLbz7JHiBTspS962RLKV8Gnd" |}.

(** The number written by base-58 digits, least significant first, and the
    number written by bytes, most significant first. *)
Definition value58 (b58 : list Z) : Z :=
  fold_right (fun d v => d + Bs58.BASE * v) 0 b58.

Definition value256 (source : list byte) : Z :=
  fold_left (fun v ch => 256 * v + Bs58.byte_value ch) source 0.

Definition is_digit58 (d : Z) : Prop := 0 <= d < Bs58.BASE.

(** A length option of the declared type: omitted or a finite number. *)
Definition length_typed (length : JS.value) : Prop :=
  length = JS.VUndefined \/ exists q, length = JS.VNum (JS.Finite q).

(** ** Vocabulary of the further properties *)

(** A short-token prefix that the check accepts when it is truthy: a
    non-empty string of lower-case letters and digits. *)
Definition shortTokenPrefix_valid (shortTokenPrefix : JS.value) : bool :=
  match shortTokenPrefix with
  | JS.VStr s => negb (Str.is_empty s) && Str.forallb JS.lower_or_digit s
  | _ => false
  end.

(** The number of bytes asked of [randomBytes] for a length option:
    [length ?? default], converted to an unsigned integer. *)
Definition byte_count (length : JS.value) (default : Z) : nat :=
  match length with
  | JS.VNum (JS.Finite q) => Z.to_nat (JS.trunc q)
  | _ => Z.to_nat default
  end.

Fixpoint occurs (c : ascii) (s : string) : bool :=
  match s with
  | EmptyString => false
  | String d s' => Ascii.eqb c d || occurs c s'
  end.

(** A character of the base-58 alphabet. *)
Definition is_base58 (c : ascii) : bool := occurs c Bs58.ALPHABET.

(** A character of [A-Za-z0-9_]. *)
Definition is_token_char (c : ascii) : bool :=
  let n := nat_of_ascii c in
  ((48 <=? n) && (n <=? 57) || (65 <=? n) && (n <=? 90)
   || (97 <=? n) && (n <=? 122) || (n =? 95))%nat.

(** * Properties *)

(** ** Strings *)

Module StrFacts.

Lemma length_append (a b : string) :
  String.length (a ++ b) = (String.length a + String.length b)%nat.
Proof. induction a as [|c a IH]; simpl; [reflexivity | now rewrite IH]. Qed.

Lemma append_nil_r (a : string) : a ++ "" = a.
Proof. induction a as [|c a IH]; simpl; [reflexivity | now rewrite IH]. Qed.

Lemma append_assoc (a b c : string) : (a ++ b) ++ c = a ++ b ++ c.
Proof. induction a as [|x a IH]; simpl; [reflexivity | now rewrite IH]. Qed.

Lemma length_repeat (c : ascii) (n : nat) : String.length (Str.repeat c n) = n.
Proof. induction n as [|n IH]; simpl; [reflexivity | now rewrite IH]. Qed.

Lemma length_take (n : nat) (s : string) :
  String.length (Str.take n s) = Nat.min n (String.length s).
Proof.
  revert s; induction n as [|n IH]; intros [|c s]; simpl; try reflexivity.
  now rewrite IH.
Qed.

Lemma take_all (n : nat) (s : string) :
  (String.length s <= n)%nat -> Str.take n s = s.
Proof.
  revert s; induction n as [|n IH]; intros [|c s]; simpl; intros H;
    try reflexivity; try lia.
  rewrite IH; [reflexivity | lia].
Qed.

Lemma take_append_le (n : nat) (a b : string) :
  (n <= String.length a)%nat -> Str.take n (a ++ b) = Str.take n a.
Proof.
  revert a; induction n as [|n IH]; intros [|c a]; simpl; intros H;
    try reflexivity; try lia.
  rewrite IH; [reflexivity | lia].
Qed.

Lemma take_append_ge (n : nat) (a b : string) :
  (String.length a <= n)%nat ->
  Str.take n (a ++ b) = a ++ Str.take (n - String.length a) b.
Proof.
  revert a; induction n as [|n IH]; intros [|c a]; simpl; intros H;
    try reflexivity; try lia.
  rewrite IH; [reflexivity | lia].
Qed.

Lemma drop_0 (s : string) : Str.drop 0 s = s.
Proof. reflexivity. Qed.

Lemma forallb_append (p : ascii -> bool) (a b : string) :
  Str.forallb p (a ++ b) = Str.forallb p a && Str.forallb p b.
Proof.
  induction a as [|c a IH]; simpl; [reflexivity|].
  now rewrite IH, andb_assoc.
Qed.

Lemma forallb_take (p : ascii -> bool) (n : nat) (s : string) :
  Str.forallb p s = true -> Str.forallb p (Str.take n s) = true.
Proof.
  revert s; induction n as [|n IH]; intros [|c s]; simpl; try reflexivity.
  intros H; apply andb_true_iff in H as [Hc Hs].
  now rewrite Hc, IH.
Qed.

Lemma forallb_repeat (p : ascii -> bool) (c : ascii) (n : nat) :
  p c = true -> Str.forallb p (Str.repeat c n) = true.
Proof. intros Hc; induction n as [|n IH]; simpl; [reflexivity | now rewrite Hc]. Qed.

Lemma forallb_impl (p q : ascii -> bool) (s : string) :
  (forall c, p c = true -> q c = true) ->
  Str.forallb p s = true -> Str.forallb q s = true.
Proof.
  intros Hpq; induction s as [|c s IH]; simpl; [reflexivity|].
  intros H; apply andb_true_iff in H as [Hc Hs].
  now rewrite (Hpq _ Hc), IH.
Qed.

Lemma forallb_get (p : ascii -> bool) (s : string) (n : nat) (c : ascii) :
  Str.forallb p s = true -> String.get n s = Some c -> p c = true.
Proof.
  revert n; induction s as [|d s IH]; intros n H G; simpl in *; [discriminate|].
  apply andb_true_iff in H as [Hd Hs].
  destruct n as [|n]; [now injection G as <- | eauto].
Qed.

Lemma free_append (c : ascii) (a b : string) :
  Str.free c (a ++ b) = Str.free c a && Str.free c b.
Proof. apply forallb_append. Qed.

Lemma free_take (c : ascii) (n : nat) (s : string) :
  Str.free c s = true -> Str.free c (Str.take n s) = true.
Proof. apply forallb_take. Qed.

Lemma free_count (c : ascii) (s : string) :
  Str.free c s = true <-> Str.count c s = O.
Proof.
  unfold Str.free; induction s as [|d s IH]; simpl; [tauto|].
  destruct (Ascii.eqb d c); simpl; [split; [discriminate | lia] | exact IH].
Qed.

Lemma starts_with_append (p s : string) : Str.starts_with p (p ++ s) = true.
Proof.
  induction p as [|c p IH]; simpl; [reflexivity|].
  now rewrite Ascii.eqb_refl, IH.
Qed.

Lemma starts_with_take (n : nat) (s : string) :
  Str.starts_with (Str.take n s) s = true.
Proof.
  revert s; induction n as [|n IH]; intros [|c s]; simpl; try reflexivity.
  now rewrite Ascii.eqb_refl, IH.
Qed.

(** A truncation of [p ++ s] starts with [p] or is itself a prefix of [p]. *)
Lemma take_prefixed (n : nat) (p s : string) :
  Str.starts_with p (Str.take n (p ++ s)) = true
  \/ Str.starts_with (Str.take n (p ++ s)) p = true.
Proof.
  destruct (Nat.le_gt_cases (String.length p) n) as [H|H].
  - left. rewrite take_append_ge by exact H. apply starts_with_append.
  - right. rewrite take_append_le by lia. apply starts_with_take.
Qed.

End StrFacts.

(** ** [split] and [slice] *)

Module JSFacts.

Import StrFacts.

Lemma split_nonempty (sep : ascii) (s : string) : JS.split sep s <> [].
Proof.
  induction s as [|c s IH]; simpl; [discriminate|].
  destruct (Ascii.eqb c sep); [discriminate|].
  destruct (JS.split sep s); [contradiction | discriminate].
Qed.

Lemma split_free (sep : ascii) (s : string) :
  Str.free sep s = true -> JS.split sep s = [s].
Proof.
  unfold Str.free; induction s as [|c s IH]; simpl; [reflexivity|].
  intros H; apply andb_true_iff in H as [Hc Hs].
  apply negb_true_iff in Hc; rewrite Hc, (IH Hs); reflexivity.
Qed.

Lemma split_append (sep : ascii) (a b : string) :
  JS.split sep (a ++ String sep b) = (JS.split sep a ++ JS.split sep b)%list.
Proof.
  induction a as [|c a IH]; simpl.
  - now rewrite Ascii.eqb_refl.
  - destruct (Ascii.eqb c sep); [now rewrite IH|].
    rewrite IH.
    destruct (JS.split sep a) as [|seg segs] eqn:E; [|reflexivity].
    now apply split_nonempty in E.
Qed.

Lemma length_split (sep : ascii) (s : string) :
  List.length (JS.split sep s) = S (Str.count sep s).
Proof.
  induction s as [|c s IH]; simpl; [reflexivity|].
  destruct (Ascii.eqb c sep); simpl; [now rewrite IH|].
  destruct (JS.split sep s) as [|seg segs] eqn:E; simpl in *; [discriminate | exact IH].
Qed.

(** A string with an occurrence of [sep] splits at its last occurrence. *)
Lemma last_separator (sep : ascii) (t : string) :
  (1 <= Str.count sep t)%nat ->
  exists pre l,
    t = pre ++ String sep l /\ Str.free sep l = true
    /\ Str.count sep pre = (Str.count sep t - 1)%nat.
Proof.
  induction t as [|c t IH]; simpl; [lia|].
  intros H.
  destruct (Nat.eq_dec (Str.count sep t) 0) as [Z|NZ].
  - destruct (Ascii.eqb c sep) eqn:E; [|lia].
    apply Ascii.eqb_eq in E; subst c.
    exists EmptyString, t; simpl.
    repeat split; [now apply free_count | lia].
  - destruct IH as (pre & l & -> & Hl & Hc); [lia|].
    exists (String c pre), l; simpl.
    repeat split; [exact Hl|].
    rewrite Hc. destruct (Ascii.eqb c sep); lia.
Qed.

Lemma skipn_app_length {A : Type} (l r : list A) :
  skipn (List.length l) (l ++ r) = r.
Proof. induction l as [|x l IH]; simpl; [reflexivity | exact IH]. Qed.

(** [arr.slice(-1)] of an array that ends in [b]. *)
Lemma slice_last {A : Type} (l : list A) (b : A) :
  JS.Array_slice (l ++ [b]) (-1) None = [b].
Proof.
  unfold JS.Array_slice, JS.relative.
  rewrite length_app; simpl List.length.
  replace (-1 <? 0) with true by reflexivity.
  replace (Z.to_nat (Z.max (Z.of_nat (List.length l + 1) + -1) 0))
    with (List.length l) by lia.
  rewrite skipn_app_length.
  replace (Z.to_nat _) with 1%nat by lia.
  reflexivity.
Qed.

(** [arr.slice(-2, -1)] of an array that ends in [a; b]. *)
Lemma slice_before_last2 {A : Type} (l : list A) (a b : A) :
  JS.Array_slice (l ++ [a; b]) (-2) (Some (-1)) = [a].
Proof.
  unfold JS.Array_slice, JS.relative.
  rewrite length_app; simpl List.length.
  replace (-1 <? 0) with true by reflexivity.
  replace (-2 <? 0) with true by reflexivity.
  replace (Z.to_nat (Z.max (Z.of_nat (List.length l + 2) + -2) 0))
    with (List.length l) by lia.
  rewrite skipn_app_length.
  replace (Z.to_nat _) with 1%nat by lia.
  reflexivity.
Qed.

(** The two slices of an array of one element. *)
Lemma slice_singleton {A : Type} (a : A) :
  JS.Array_slice [a] (-1) None = [a]
  /\ JS.Array_slice [a] (-2) (Some (-1)) = [].
Proof. split; reflexivity. Qed.

Lemma take_min (n : nat) (s : string) :
  Str.take (Nat.min n (String.length s)) s = Str.take n s.
Proof.
  revert s; induction n as [|n IH]; intros [|c s]; simpl; try reflexivity.
  now rewrite IH.
Qed.

Lemma relative_0 (n : nat) : JS.relative (Z.of_nat n) (JS.Int 0) = 0.
Proof. unfold JS.relative. simpl. lia. Qed.

(** [s.slice(0, end)] is a truncation of [s], whatever [end] is. *)
Lemma String_slice_take (s : string) (end_ : JS.value) :
  exists k, JS.String_slice s 0 end_ = Str.take k s.
Proof.
  unfold JS.String_slice. rewrite relative_0. simpl Str.drop.
  eexists; reflexivity.
Qed.

Lemma String_slice_undefined (s : string) :
  JS.String_slice s 0 JS.VUndefined = s.
Proof.
  unfold JS.String_slice. rewrite relative_0. simpl Str.drop.
  rewrite Z.sub_0_r, Nat2Z.id. apply take_all; lia.
Qed.

Lemma String_slice_num (s : string) (q : Q) :
  0 <= JS.trunc q ->
  JS.String_slice s 0 (JS.VNum (JS.Finite q))
  = Str.take (Z.to_nat (JS.trunc q)) s.
Proof.
  intros Hq. unfold JS.String_slice. rewrite relative_0. simpl Str.drop.
  unfold JS.ToIntegerOrInfinity, JS.relative. simpl JS.ToNumber. cbv iota.
  replace (JS.trunc q <? 0) with false by (symmetry; apply Z.ltb_ge; lia).
  rewrite Z.sub_0_r, Z2Nat.inj_min, Nat2Z.id. apply take_min.
Qed.

End JSFacts.

(** ** Numbers, padding, the encoder and the digest *)

Module LibFacts.

Import StrFacts JSFacts.

Lemma trunc_zero (q : Q) : JS.is_zero q = true -> JS.trunc q = 0.
Proof.
  unfold JS.is_zero, JS.trunc; intros H.
  apply Qeq_bool_iff in H. unfold Qeq in H; simpl in H.
  replace (Qnum q) with 0 by lia. apply Z.quot_0_l. discriminate.
Qed.

Lemma trunc_inject_Z (z : Z) : JS.trunc (inject_Z z) = z.
Proof. unfold JS.trunc; simpl. apply Z.quot_1_r. Qed.

Lemma trunc_nonneg (q : Q) : (0 <= q)%Q -> 0 <= JS.trunc q.
Proof.
  unfold JS.trunc, Qle; simpl; intros H.
  apply Z.quot_pos; lia.
Qed.

Lemma trunc_bounds (q : Q) (lo hi : Z) :
  0 <= lo -> (inject_Z lo <= q)%Q -> (q <= inject_Z hi)%Q ->
  lo <= JS.trunc q <= hi.
Proof.
  unfold JS.trunc, Qle; simpl; intros H0 Hlo Hhi.
  rewrite Z.quot_div_nonneg by lia. split.
  - apply Z.div_le_lower_bound; lia.
  - apply Z.div_le_upper_bound; lia.
Qed.

(** [toInteger] of a finite number is its integer part. *)
Lemma toInteger_num (q : Q) :
  Lodash.toInteger (JS.VNum (JS.Finite q)) = JS.trunc q.
Proof.
  unfold Lodash.toInteger; simpl.
  destruct (JS.is_zero q) eqn:E; simpl; [now rewrite trunc_zero | reflexivity].
Qed.

Lemma padStart_undefined (s : string) (c : ascii) :
  Lodash.padStart s JS.VUndefined c = s.
Proof. reflexivity. Qed.

Lemma padStart_num (s : string) (q : Q) (c : ascii) :
  Lodash.padStart s (JS.VNum (JS.Finite q)) c
  = Str.repeat c (Z.to_nat (JS.trunc q) - String.length s) ++ s.
Proof.
  unfold Lodash.padStart. rewrite toInteger_num.
  destruct (JS.trunc q =? 0) eqn:E0; simpl negb; cbv iota.
  - apply Z.eqb_eq in E0; rewrite E0; reflexivity.
  - simpl andb.
    destruct (Z.of_nat (String.length s) <? JS.trunc q) eqn:E.
    + apply Z.ltb_lt in E.
      replace (Z.to_nat (JS.trunc q - Z.of_nat (String.length s)))
        with (Z.to_nat (JS.trunc q) - String.length s)%nat by lia.
      reflexivity.
    + apply Z.ltb_ge in E.
      replace (Z.to_nat (JS.trunc q) - String.length s)%nat with O by lia.
      reflexivity.
Qed.

(** [padStart] only ever prepends copies of the pad character. *)
Lemma padStart_repeat (s : string) (v : JS.value) (c : ascii) :
  exists k, Lodash.padStart s v c = Str.repeat c k ++ s.
Proof.
  unfold Lodash.padStart.
  destruct (negb _ && _); [eexists; reflexivity | now exists O].
Qed.

(** Left-padding to [n] and truncating to [n] gives exactly [n] characters. *)
Lemma length_pad_take (n : nat) (c : ascii) (s : string) :
  String.length (Str.take n (Str.repeat c (n - String.length s) ++ s)) = n.
Proof. rewrite length_take, length_append, length_repeat. lia. Qed.

Lemma value58_cons (d : Z) (ds : list Z) :
  value58 (d :: ds) = d + 58 * value58 ds.
Proof. reflexivity. Qed.

(** The model of the encoder writes the number of its input in base 58. *)
Lemma mul_add_value (b58 : list Z) (carry : Z) :
  value58 (Bs58.mul_add b58 carry) = carry + 256 * value58 b58.
Proof.
  revert carry; induction b58 as [|d ds IH]; intros carry;
    cbn [Bs58.mul_add].
  - change (value58 []) with 0. unfold Bs58.BASE.
    destruct (carry =? 0) eqn:E0.
    + apply Z.eqb_eq in E0. change (value58 []) with 0. lia.
    + destruct (carry <? 58).
      * rewrite value58_cons. change (value58 []) with 0. lia.
      * rewrite !value58_cons. change (value58 []) with 0.
        pose proof (Z.div_mod carry 58). lia.
  - rewrite !value58_cons, IH. unfold Bs58.BASE.
    pose proof (Z.div_mod (carry + 256 * d) 58). lia.
Qed.

Lemma mul_add_digits (b58 : list Z) (carry : Z) :
  0 <= carry < 256 -> Forall is_digit58 b58 ->
  Forall is_digit58 (Bs58.mul_add b58 carry).
Proof.
  unfold is_digit58, Bs58.BASE.
  intros C F; revert carry C; induction F as [|d ds Hd F IH]; intros carry C;
    cbn [Bs58.mul_add]; cbv beta in *; unfold Bs58.BASE.
  - destruct (carry =? 0); [constructor|].
    destruct (carry <? 58) eqn:L.
    + apply Z.ltb_lt in L. repeat constructor; lia.
    + apply Z.ltb_ge in L.
      pose proof (Z.mod_pos_bound carry 58).
      assert (carry / 58 < 58) by (apply Z.div_lt_upper_bound; lia).
      assert (0 <= carry / 58) by (apply Z.div_pos; lia).
      repeat constructor; lia.
  - constructor.
    + apply Z.mod_pos_bound; lia.
    + apply IH. split.
      * apply Z.div_pos; lia.
      * apply Z.div_lt_upper_bound; lia.
Qed.

Lemma byte_value_range (b : byte) : 0 <= Bs58.byte_value b < 256.
Proof.
  unfold Bs58.byte_value. pose proof (Byte.to_N_bounded b). lia.
Qed.

Lemma digits_spec (source : list byte) :
  value58 (Bs58.digits source) = value256 source
  /\ Forall is_digit58 (Bs58.digits source).
Proof.
  unfold Bs58.digits, value256.
  assert (G : forall b58,
             Forall is_digit58 b58 ->
             value58 (fold_left (fun b58 ch => Bs58.mul_add b58 (Bs58.byte_value ch))
                                source b58)
             = fold_left (fun v ch => 256 * v + Bs58.byte_value ch) source
                         (value58 b58)
             /\ Forall is_digit58
                  (fold_left (fun b58 ch => Bs58.mul_add b58 (Bs58.byte_value ch))
                             source b58)).
  { induction source as [|ch rest IH]; intros b58 F; cbn [fold_left];
      [now split|].
    destruct (IH (Bs58.mul_add b58 (Bs58.byte_value ch))) as [V D].
    - apply mul_add_digits; [apply byte_value_range | exact F].
    - rewrite V, mul_add_value, Z.add_comm. split; [reflexivity | exact D]. }
  apply G. constructor.
Qed.

(** Test vectors of the two library models. *)
Example encode_hello_world :
  Bs58.encode [x68; x65; x6c; x6c; x6f; x20; x77; x6f; x72; x6c; x64]
  = "StV1DL6CwTryKyV"
  /\ Bs58.encode [x00; x00; x01] = "112".
Proof. split; reflexivity. Qed.


Lemma alphabet_free : Str.free "_" Bs58.ALPHABET = true.
Proof. reflexivity. Qed.

Lemma charAt_free (d : Z) : Str.free "_" (Bs58.charAt d) = true.
Proof.
  unfold Bs58.charAt. destruct (d <? 0); [reflexivity|].
  destruct (String.get _ _) as [c|] eqn:G; [|reflexivity].
  unfold Str.free; simpl. rewrite andb_true_r.
  exact (forallb_get _ _ _ _ alphabet_free G).
Qed.

Lemma translate_free (b58 : list Z) : Str.free "_" (Bs58.translate b58) = true.
Proof.
  induction b58 as [|d ds IH]; simpl; [reflexivity|].
  now rewrite free_append, charAt_free, IH.
Qed.

(** No encoded string contains the delimiter of the token. *)
Lemma encode_free (source : list byte) : Str.free "_" (Bs58.encode source) = true.
Proof.
  unfold Bs58.encode. destruct (Bs58.skip_zeroes source) as [zeroes tail].
  rewrite free_append, translate_free, andb_true_r.
  now apply forallb_repeat.
Qed.





End LibFacts.

(** ** [generateAPIKey] step by step *)

Module GenerateFacts.

Import StrFacts JSFacts LibFacts.

(** The run of [generateAPIKey]: the five checks in order, the two draws,
    the assembly. *)
Lemma generateAPIKey_run (options : JS.value) (p : pool) :
  generateAPIKey options p =
  if negb (JS.truthy options) then (Throw (Error msg_options), p) else
  if bad_keyPrefix (JS.get options "keyPrefix")
  then (Throw (Error msg_keyPrefix), p) else
  if bad_shortTokenPrefix (JS.get options "shortTokenPrefix")
  then (Throw (Error msg_shortTokenPrefix), p) else
  if bad_length (JS.get options "shortTokenLength")
  then (Throw (Error msg_shortTokenLength), p) else
  if bad_length (JS.get options "longTokenLength")
  then (Throw (Error msg_longTokenLength), p) else
  let (r1, p1) :=
    randomBytes (JS.nullish_or (JS.get options "shortTokenLength") (JS.num 8)) p in
  let (r2, p2) :=
    randomBytes (JS.nullish_or (JS.get options "longTokenLength") (JS.num 24)) p1 in
  (match r1, r2 with
   | Ok sb, Ok lb => Ok (assemble options sb lb)
   | Throw e, _ => Throw e
   | Ok _, Throw e => Throw e
   end, p2).
Proof.
  unfold generateAPIKey.
  destruct (negb (JS.truthy options)); [reflexivity|].
  destruct (bad_keyPrefix _); [reflexivity|].
  destruct (bad_shortTokenPrefix _); [reflexivity|].
  destruct (bad_length (JS.get options "shortTokenLength")); [reflexivity|].
  destruct (bad_length (JS.get options "longTokenLength")); [reflexivity|].
  unfold bind, Promise_all.
  destruct (randomBytes _ p) as [r1 p1].
  destruct (randomBytes _ p1) as [r2 p2].
  destruct r1 as [sb|e1], r2 as [lb|e2]; reflexivity.
Qed.

(** A failed check is the whole run, and the pool is left as it was. *)
Lemma validate_Some (options : JS.value) (p : pool) (message : string) :
  validate options = Some message ->
  generateAPIKey options p = (Throw (Error message), p).
Proof.
  rewrite generateAPIKey_run. unfold validate.
  destruct (negb (JS.truthy options)); [now intros [= <-]|].
  destruct (bad_keyPrefix _); [now intros [= <-]|].
  destruct (bad_shortTokenPrefix _); [now intros [= <-]|].
  destruct (bad_length (JS.get options "shortTokenLength")); [now intros [= <-]|].
  destruct (bad_length (JS.get options "longTokenLength")); [now intros [= <-]|].
  discriminate.
Qed.

(** A draw that succeeds was asked for a finite, non-negative number of
    bytes and splits the pool. *)
Lemma randomBytes_Ok (size : JS.value) (p : pool) (bytes : list byte) (p' : pool) :
  randomBytes size p = (Ok bytes, p') ->
  exists q, size = JS.VNum (JS.Finite q) /\ 0 <= JS.trunc q
            /\ List.length bytes = Z.to_nat (JS.trunc q)
            /\ p = (bytes ++ p')%list.
Proof.
  unfold randomBytes.
  destruct size as [| |b|[|neg|q]|s|props]; try discriminate.
  destruct (JS.lt _ _ || JS.gt _ _) eqn:R; [discriminate|].
  destruct (_ <=? _)%nat eqn:L; [|discriminate].
  intros H; injection H as <- <-.
  apply orb_false_iff in R as [R _]. apply Nat.leb_le in L.
  exists q; repeat split.
  - apply trunc_nonneg. unfold JS.lt in R.
    apply negb_false_iff, Qle_bool_iff in R. exact R.
  - rewrite length_firstn. lia.
  - symmetry; apply firstn_skipn.
Qed.

(** A draw never fails with an error of the module's own checks, and a
    failed draw takes nothing from the pool. *)
Lemma randomBytes_Throw (size : JS.value) (p : pool) (e : error) (p' : pool) :
  randomBytes size p = (Throw e, p') ->
  p' = p /\ forall message, e <> Error message.
Proof.
  unfold randomBytes.
  destruct size as [| |b|[|neg|q]|s|props];
    try (intros H; injection H as <- <-; split; [reflexivity | discriminate]).
  destruct (JS.lt _ _ || JS.gt _ _);
    [intros H; injection H as <- <-; split; [reflexivity | discriminate]|].
  destruct (_ <=? _)%nat; [discriminate|].
  intros H; injection H as <- <-; split; [reflexivity | discriminate].
Qed.

(** An error of the module's own is the message of the first failed check,
    raised with the pool untouched. *)
Lemma generateAPIKey_Error (options : JS.value) (p : pool) (message : string)
      (p' : pool) :
  generateAPIKey options p = (Throw (Error message), p') ->
  validate options = Some message /\ p' = p.
Proof.
  rewrite generateAPIKey_run. unfold validate.
  destruct (negb (JS.truthy options)); [now intros [= <- <-]|].
  destruct (bad_keyPrefix _); [now intros [= <- <-]|].
  destruct (bad_shortTokenPrefix _); [now intros [= <- <-]|].
  destruct (bad_length (JS.get options "shortTokenLength")); [now intros [= <- <-]|].
  destruct (bad_length (JS.get options "longTokenLength")); [now intros [= <- <-]|].
  destruct (randomBytes _ p) as [r1 p1] eqn:D1.
  destruct (randomBytes _ p1) as [r2 p2] eqn:D2.
  destruct r1 as [sb|e1], r2 as [lb|e2]; intros [= E _]; subst.
  - apply randomBytes_Throw in D2 as [_ N]. now destruct (N message).
  - apply randomBytes_Throw in D1 as [_ N]. now destruct (N message).
  - apply randomBytes_Throw in D1 as [_ N]. now destruct (N message).
Qed.

(** The check of a length option rejects the truthy values that are not a
    number from 4 to 24. *)
Lemma bad_length_spec (length : JS.value) :
  bad_length length = JS.truthy length && negb (number_in_range length).
Proof.
  unfold bad_length.
  destruct length as [| |b|[|neg|q]|s|props]; simpl;
    try reflexivity; try now rewrite andb_true_r.
  - now destruct neg.
  - unfold JS.gt, JS.lt. now rewrite negb_andb.
Qed.

(** The shape of a successful generation. *)
Lemma generateAPIKey_Ok (options : JS.value) (p : pool) (key : APIKey.t) (p' : pool) :
  generateAPIKey options p = (Ok key, p') ->
  JS.truthy options = true /\ fields_ok options = true
  /\ exists sb lb,
       randomBytes (JS.nullish_or (JS.get options "shortTokenLength") (JS.num 8))
                   (sb ++ lb ++ p')%list = (Ok sb, (lb ++ p')%list)
       /\ randomBytes (JS.nullish_or (JS.get options "longTokenLength") (JS.num 24))
                      (lb ++ p')%list = (Ok lb, p')
       /\ p = (sb ++ lb ++ p')%list
       /\ key = assemble options sb lb.
Proof.
  rewrite generateAPIKey_run. unfold fields_ok.
  destruct (JS.truthy options); [simpl negb; cbv iota | discriminate].
  destruct (bad_keyPrefix _); [discriminate|].
  destruct (bad_shortTokenPrefix _); [discriminate|].
  destruct (bad_length (JS.get options "shortTokenLength")); [discriminate|].
  destruct (bad_length (JS.get options "longTokenLength")); [discriminate|].
  destruct (randomBytes _ p) as [r1 p1] eqn:D1.
  destruct (randomBytes _ p1) as [r2 p2] eqn:D2.
  destruct r1 as [sb|e1], r2 as [lb|e2]; try discriminate.
  intros H; injection H as <- <-.
  destruct (randomBytes_Ok _ _ _ _ D1) as (q1 & _ & _ & _ & E1).
  destruct (randomBytes_Ok _ _ _ _ D2) as (q2 & _ & _ & _ & E2).
  subst p1 p. repeat split. exists sb, lb. repeat split; assumption.
Qed.

(** After the checks the key prefix is a string of the allowed characters,
    and the short-token prefix is such a string or falsy. *)
Lemma accepted_prefixes (options : JS.value) :
  fields_ok options = true ->
  (exists kp, JS.get options "keyPrefix" = JS.VStr kp
              /\ JS.test_key_prefix kp = true)
  /\ (JS.truthy (JS.get options "shortTokenPrefix") = false
      \/ exists sp, JS.get options "shortTokenPrefix" = JS.VStr sp
                    /\ JS.test_short_prefix sp = true).
Proof.
  unfold fields_ok. intros H.
  apply andb_true_iff in H as [H _]. apply andb_true_iff in H as [H _].
  apply andb_true_iff in H as [H H0].
  apply negb_true_iff in H, H0. split.
  - unfold bad_keyPrefix in H.
    apply orb_false_iff in H as [H T]. apply orb_false_iff in H as [_ S].
    apply negb_false_iff in S, T.
    destruct (JS.get options "keyPrefix") as [| |b|n|s|props];
      try discriminate S.
    exists s; split; [reflexivity | exact T].
  - unfold bad_shortTokenPrefix in H0.
    destruct (JS.truthy (JS.get options "shortTokenPrefix")); [right | now left].
    apply orb_false_iff in H0 as [S T]. apply negb_false_iff in S, T.
    destruct (JS.get options "shortTokenPrefix") as [| |b|n|s|props];
      try discriminate S.
    exists s; split; [reflexivity | exact T].
Qed.

(** A length option that both the check and the draw accepted is
    [undefined], [null] or a number that is 0 or has its integer part in
    the range from 4 to 24. *)
Lemma drawn_length_shape (length : JS.value) (d : Z) (p : pool)
      (bytes : list byte) (p' : pool) :
  bad_length length = false ->
  randomBytes (JS.nullish_or length (JS.num d)) p = (Ok bytes, p') ->
  length = JS.VUndefined \/ length = JS.VNull
  \/ exists q, length = JS.VNum (JS.Finite q)
               /\ (JS.trunc q = 0 \/ 4 <= JS.trunc q <= 24).
Proof.
  intros B D. apply randomBytes_Ok in D as (q & E & Hq & _).
  destruct length as [| |b|n|s|props]; try discriminate E; auto.
  right; right. injection E as ->. exists q; split; [reflexivity|].
  unfold bad_length in B; simpl in B.
  destruct (JS.is_zero q) eqn:Z; [left; now apply trunc_zero | right].
  simpl in B. apply orb_false_iff in B as [B1 B2].
  unfold JS.gt, JS.lt in B1, B2.
  apply negb_false_iff, Qle_bool_iff in B1, B2.
  apply (trunc_bounds q 4 24); [lia | exact B1 | exact B2].
Qed.

Lemma lower_or_digit_not_underscore (c : ascii) :
  JS.lower_or_digit c = true -> negb (Ascii.eqb c "_") = true.
Proof.
  destruct (Ascii.eqb c "_") eqn:E; [|reflexivity].
  apply Ascii.eqb_eq in E; subst c. discriminate.
Qed.

(** The prefix put in front of the short token has no underscore. *)
Lemma short_prefix_free (options : JS.value) :
  fields_ok options = true -> Str.free "_" (short_prefix options) = true.
Proof.
  intros H. destruct (accepted_prefixes _ H) as [_ [F | (sp & E & T)]];
    unfold short_prefix.
  - now rewrite F.
  - rewrite E. destruct (JS.truthy (JS.VStr sp)); [|reflexivity]. simpl.
    apply andb_true_iff in T as [_ T].
    exact (forallb_impl _ _ _ lower_or_digit_not_underscore T).
Qed.

(** Padding and truncation keep a string free of underscores. *)
Lemma normalise_free (encoded : string) (length : JS.value) :
  Str.free "_" encoded = true -> Str.free "_" (normalise encoded length) = true.
Proof.
  intros H. unfold normalise.
  destruct (padStart_repeat encoded length "0") as [k ->].
  destruct (String_slice_take (Str.repeat "0" k ++ encoded) length) as [n ->].
  apply free_take. rewrite free_append, H, andb_true_r.
  now apply forallb_repeat.
Qed.

(** Neither token of an assembled key contains an underscore. *)
Lemma assemble_free (options : JS.value) (sb lb : list byte) :
  fields_ok options = true ->
  Str.free "_" (APIKey.shortToken (assemble options sb lb)) = true
  /\ Str.free "_" (APIKey.longToken (assemble options sb lb)) = true.
Proof.
  intros H; simpl; split.
  - destruct (String_slice_take
                (short_prefix options
                 ++ normalise (Bs58.encode sb) (JS.get options "shortTokenLength"))
                (JS.get options "shortTokenLength")) as [n ->].
    apply free_take.
    rewrite free_append, (short_prefix_free _ H), normalise_free;
      [reflexivity | apply encode_free].
  - apply normalise_free, encode_free.
Qed.

Lemma normalise_undefined (encoded : string) :
  normalise encoded JS.VUndefined = encoded.
Proof.
  unfold normalise. now rewrite padStart_undefined, String_slice_undefined.
Qed.

(** With a number as length option the encoded entropy is padded on the
    left with the character 0 up to the integer part of the number and
    truncated to it. *)
Lemma normalise_num (encoded : string) (q : Q) :
  0 <= JS.trunc q ->
  normalise encoded (JS.VNum (JS.Finite q))
  = Str.take (Z.to_nat (JS.trunc q))
      (Str.repeat "0" (Z.to_nat (JS.trunc q) - String.length encoded)
       ++ encoded).
Proof.
  intros H. unfold normalise. now rewrite padStart_num, String_slice_num.
Qed.

Lemma short_prefix_given (options : JS.value) (sp : string) :
  JS.get options "shortTokenPrefix" = JS.VStr sp -> short_prefix options = sp.
Proof. unfold short_prefix. intros ->. now destruct sp. Qed.

(** The number of bytes of a draw: the default when the length option is
    [undefined], the integer part of the option when it is a number. *)
Lemma drawn_count (length : JS.value) (d : Z) (p : pool) (bytes : list byte)
      (p' : pool) :
  randomBytes (JS.nullish_or length (JS.num d)) p = (Ok bytes, p') ->
  (length = JS.VUndefined -> List.length bytes = Z.to_nat d)
  /\ (forall q, length = JS.VNum (JS.Finite q) ->
                0 <= JS.trunc q /\ List.length bytes = Z.to_nat (JS.trunc q)).
Proof.
  intros D. apply randomBytes_Ok in D as (q & E & Hq & L & _). split.
  - intros ->. simpl in E. injection E as <-.
    now rewrite L, trunc_inject_Z.
  - intros q' ->. simpl in E. injection E as <-. now split.
Qed.

(** A draw of a whole number of bytes from a pool that has them. *)
Lemma randomBytes_enough (q : Q) (p : pool) :
  (0 <= q)%Q -> (q <= 24)%Q -> (24 <= List.length p)%nat ->
  exists bytes p',
    randomBytes (JS.VNum (JS.Finite q)) p = (Ok bytes, p')
    /\ (List.length p - 24 <= List.length p')%nat.
Proof.
  intros L H P. unfold randomBytes.
  replace (JS.lt (JS.Finite q) (JS.Finite 0)) with false
    by (symmetry; apply negb_false_iff, Qle_bool_iff; exact L).
  replace (JS.gt (JS.Finite q) (JS.Finite (inject_Z kMaxPossibleLength)))
    with false.
  2:{ symmetry. apply negb_false_iff, Qle_bool_iff.
      apply Qle_trans with (1 := H). unfold Qle; simpl. lia. }
  simpl orb. cbv iota.
  pose proof (trunc_bounds q 0 24 (Z.le_refl 0) L H) as B.
  replace (Z.to_nat (JS.trunc q) <=? List.length p)%nat with true
    by (symmetry; apply Nat.leb_le; lia).
  eexists _, _. split; [reflexivity|].
  rewrite length_skipn. lia.
Qed.

(** Options that pass the checks, with length options of the declared type,
    yield a key whenever the pool holds 48 bytes. *)
Lemma generateAPIKey_succeeds (options : JS.value) (p : pool) :
  validate options = None ->
  length_typed (JS.get options "shortTokenLength") ->
  length_typed (JS.get options "longTokenLength") ->
  (48 <= List.length p)%nat ->
  exists key p', generateAPIKey options p = (Ok key, p').
Proof.
  intros V TS TL P. rewrite generateAPIKey_run. unfold validate in V.
  destruct (negb (JS.truthy options)); [discriminate|].
  destruct (bad_keyPrefix _); [discriminate|].
  destruct (bad_shortTokenPrefix _); [discriminate|].
  destruct (bad_length (JS.get options "shortTokenLength")) eqn:BS; [discriminate|].
  destruct (bad_length (JS.get options "longTokenLength")) eqn:BL; [discriminate|].
  assert (R : forall length d pool,
             bad_length length = false -> length_typed length ->
             0 <= d <= 24 -> (24 <= List.length pool)%nat ->
             exists bytes pool',
               randomBytes (JS.nullish_or length (JS.num d)) pool = (Ok bytes, pool')
               /\ (List.length pool - 24 <= List.length pool')%nat).
  { intros length d pool B [-> | [q ->]] D L; simpl JS.nullish_or.
    - apply randomBytes_enough; [| |exact L]; unfold Qle; simpl; lia.
    - rewrite bad_length_spec in B. simpl in B.
      destruct (JS.is_zero q) eqn:Z; simpl in B.
      + apply Qeq_bool_iff in Z.
        apply randomBytes_enough; [| |exact L]; rewrite Z; unfold Qle; simpl; lia.
      + apply negb_false_iff, andb_true_iff in B as [B1 B2].
        apply Qle_bool_iff in B1, B2.
        apply randomBytes_enough; [|exact B2|exact L].
        apply Qle_trans with (2 := B1). unfold Qle; simpl; lia. }
  destruct (R _ 8 p BS TS) as (sb & p1 & -> & L1); [lia | lia|].
  destruct (R _ 24 p1 BL TL) as (lb & p2 & -> & L2); [lia | lia|].
  eexists _, _. reflexivity.
Qed.

End GenerateFacts.

(** ** Parsing *)

Module ParseFacts.

Import StrFacts JSFacts LibFacts.

(** A token that ends in two segments without underscore. *)
Lemma extract_suffix (pre s l : string) :
  Str.free "_" s = true -> Str.free "_" l = true ->
  extractShortToken (pre ++ "_" ++ s ++ "_" ++ l) = Some s
  /\ extractLongToken (pre ++ "_" ++ s ++ "_" ++ l) = Some l.
Proof.
  intros Hs Hl. unfold extractShortToken, extractLongToken.
  change (pre ++ "_" ++ s ++ "_" ++ l) with (pre ++ String "_" (s ++ String "_" l)).
  rewrite !split_append, (split_free _ _ Hs), (split_free _ _ Hl).
  change ([s] ++ [l])%list with [s; l].
  split.
  - now rewrite slice_before_last2.
  - replace (JS.split "_" pre ++ [s; l])%list
      with ((JS.split "_" pre ++ [s]) ++ [l])%list by (now rewrite <- app_assoc).
    now rewrite slice_last.
Qed.

(** A token without underscore. *)
Lemma extract_whole (t : string) :
  Str.free "_" t = true ->
  extractLongToken t = Some t /\ extractShortToken t = None.
Proof.
  intros H. unfold extractShortToken, extractLongToken.
  rewrite (split_free _ _ H). split; reflexivity.
Qed.

(** [extractLongToken] always returns the last segment. *)
Lemma extractLongToken_last (t : string) :
  exists l, last_segment t l /\ extractLongToken t = Some l.
Proof.
  destruct (Nat.eq_dec (Str.count "_" t) 0) as [Z|NZ].
  - apply free_count in Z. exists t; split.
    + split; [exact Z | now left].
    + now apply extract_whole.
  - destruct (last_separator "_" t) as (pre & l & -> & Hl & _); [lia|].
    exists l; split.
    + split; [exact Hl | right; now exists pre].
    + unfold extractLongToken.
      now rewrite split_append, (split_free _ _ Hl), slice_last.
Qed.

(** The last segment of a token is unique. *)
Lemma last_segment_unique (t l1 l2 : string) :
  last_segment t l1 -> last_segment t l2 -> l1 = l2.
Proof.
  assert (E : forall l, last_segment t l -> extractLongToken t = Some l).
  { intros l [Hl [-> | [pre ->]]].
    - now apply extract_whole.
    - unfold extractLongToken.
      change (pre ++ "_" ++ l) with (pre ++ String "_" l).
      now rewrite split_append, (split_free _ _ Hl), slice_last. }
  intros H1 H2. apply E in H1, H2. congruence.
Qed.

(** The token of an assembled key is the key prefix, the short token and the
    long token, joined by underscores. *)
Lemma assemble_token (options : JS.value) (sb lb : list byte) :
  fields_ok options = true ->
  exists kp,
    JS.get options "keyPrefix" = JS.VStr kp
    /\ JS.test_key_prefix kp = true
    /\ APIKey.token (assemble options sb lb)
       = kp ++ "_" ++ APIKey.shortToken (assemble options sb lb)
            ++ "_" ++ APIKey.longToken (assemble options sb lb).
Proof.
  intros H. destruct (GenerateFacts.accepted_prefixes _ H) as [(kp & E & T) _].
  exists kp. repeat split; try assumption.
  simpl. now rewrite E.
Qed.

(** Both extractions recover the tokens of a generated key. *)
Lemma generated_extract (options : JS.value) (p : pool) (key : APIKey.t) (p' : pool) :
  generateAPIKey options p = (Ok key, p') ->
  extractShortToken (APIKey.token key) = Some (APIKey.shortToken key)
  /\ extractLongToken (APIKey.token key) = Some (APIKey.longToken key).
Proof.
  intros G.
  apply GenerateFacts.generateAPIKey_Ok in G as (_ & F & sb & lb & _ & _ & _ & ->).
  destruct (assemble_token options sb lb F) as (kp & _ & _ & ->).
  destruct (GenerateFacts.assemble_free options sb lb F) as [Hs Hl].
  now apply extract_suffix.
Qed.

End ParseFacts.

(** * The claims *)

Import StrFacts JSFacts LibFacts GenerateFacts ParseFacts.

(** C8, as stated, fails: the digest of the known token has 64 characters,
    so the components cannot be the stated ones with a hash of 65. *)
Lemma known_token_hash_not_65 :
  ~ (getTokenComponents known_token = Ok known_components
     /\ String.length (TokenComponents.longTokenHash known_components) = 65%nat).
Proof. intros [_ H]. vm_compute in H. discriminate H. Qed.

(** C8 (amended): [getTokenComponents] on the literal token
    my_company_BRTRKFsL_51FwqftsmMDHHbJAMEXXHCgG returns the short token
    BRTRKFsL, the long token 51FwqftsmMDHHbJAMEXXHCgG and the hash
    d70d981d...c79f37, and that hash has 64 hexadecimal characters, the
    length of a SHA-256 digest in hexadecimal. *)
Theorem known_token_components :
  getTokenComponents known_token = Ok known_components
  /\ String.length (TokenComponents.longTokenHash known_components) = 64%nat
  /\ Str.forallb is_hex (TokenComponents.longTokenHash known_components) = true.
Proof. vm_compute. repeat split. Qed.



(** C10: on a token without underscore [extractLongToken] returns the whole
    token, [extractShortToken] returns [undefined], nothing throws, and
    [getTokenComponents] returns the whole token as long token, no short
    token and the digest of the whole token. *)
Theorem no_underscore_components (t : string) :
  Str.free "_" t = true ->
  extractLongToken t = Some t
  /\ extractShortToken t = None
  /\ getTokenComponents t =
     Ok {| TokenComponents.longToken := Some t;
           TokenComponents.shortToken := None;
           TokenComponents.longTokenHash := Sha256.hex_digest t;
           TokenComponents.token := t |}.
Proof.
  intros H. destruct (extract_whole t H) as [L S].
  unfold getTokenComponents. rewrite L, S. repeat split.
Qed.

Lemma no_underscore_components_witness :
  Str.free "_" "abc" = true
  /\ extractLongToken "abc" = Some "abc"
  /\ extractShortToken "abc" = None.
Proof.
  split; [reflexivity|].
  pose proof (no_underscore_components "abc" eq_refl) as (L & S & _).
  split; assumption.
Defined.

(** C6: on a token with at least two underscores [extractLongToken] returns
    the last segment and [extractShortToken] the one before it, whatever
    precedes them; so both recover the tokens of every generated key, also
    when its key prefix contains underscores. *)
Theorem extract_right_anchored (t : string) :
  (2 <= Str.count "_" t)%nat ->
  (exists pre s l,
      t = pre ++ "_" ++ s ++ "_" ++ l
      /\ Str.free "_" s = true /\ Str.free "_" l = true
      /\ extractShortToken t = Some s /\ extractLongToken t = Some l)
  /\ (forall options p key p',
        generateAPIKey options p = (Ok key, p') ->
        APIKey.token key = t ->
        extractLongToken t = Some (APIKey.longToken key)
        /\ extractShortToken t = Some (APIKey.shortToken key)).
Proof.
  intros H. split.
  - destruct (last_separator "_" t) as (pre & l & -> & Hl & C); [lia|].
    destruct (last_separator "_" pre) as (pre' & s & -> & Hs & _); [lia|].
    exists pre', s, l.
    replace ((pre' ++ String "_" s) ++ String "_" l)
      with (pre' ++ "_" ++ s ++ "_" ++ l) by (now rewrite append_assoc).
    destruct (extract_suffix pre' s l Hs Hl) as [ES EL].
    repeat split; assumption.
  - intros options p key p' G <-.
    destruct (generated_extract _ _ _ _ G) as [ES EL]. now split.
Qed.

Lemma extract_right_anchored_witness :
  (2 <= Str.count "_" known_token)%nat
  /\ exists pre s l,
      known_token = pre ++ "_" ++ s ++ "_" ++ l
      /\ Str.free "_" s = true /\ Str.free "_" l = true
      /\ extractShortToken known_token = Some s
      /\ extractLongToken known_token = Some l.
Proof.
  assert (H : (2 <= Str.count "_" known_token)%nat) by (vm_compute; lia).
  split; [exact H | exact (proj1 (extract_right_anchored known_token H))].
Defined.

(** C3: [checkAPIKey t h] returns, without throwing, whether the SHA-256
    digest in hexadecimal of the last segment of [t] is [h]; for a generated
    key it is true on the key's own hash and false on any other string. *)
Theorem checkAPIKey_spec :
  (forall t h,
      exists l,
        last_segment t l
        /\ checkAPIKey t h = Ok (String.eqb (Sha256.hex_digest l) h)
        /\ (checkAPIKey t h = Ok true <-> Sha256.hex_digest l = h))
  /\ (forall options p key p',
        generateAPIKey options p = (Ok key, p') ->
        checkAPIKey (APIKey.token key) (APIKey.longTokenHash key) = Ok true
        /\ forall s, s <> APIKey.longTokenHash key ->
                     checkAPIKey (APIKey.token key) s = Ok false).
Proof.
  split.
  - intros t h. destruct (extractLongToken_last t) as (l & L & E).
    exists l. unfold checkAPIKey. rewrite E. cbn [call_hashLongToken]. unfold hashLongToken.
    split; [assumption|]. split; [reflexivity|].
    generalize (Sha256.hex_digest l); intros d.
    split.
    + intros H; injection H as H. apply String.eqb_eq; exact H.
    + intros H. apply String.eqb_eq in H. rewrite H; reflexivity.
  - intros options p key p' G.
    destruct (generated_extract _ _ _ _ G) as [_ EL].
    apply generateAPIKey_Ok in G as (_ & _ & sb & lb & _ & _ & _ & K).
    unfold checkAPIKey. rewrite EL. cbn [call_hashLongToken].
    assert (HK : APIKey.longTokenHash key = hashLongToken (APIKey.longToken key)).
    { rewrite K. reflexivity. }
    rewrite HK. generalize (hashLongToken (APIKey.longToken key)); intros d. split.
    + rewrite String.eqb_refl; reflexivity.
    + intros s Hs. f_equal. apply String.eqb_neq. congruence.
Qed.

(** C2: for a generated key, [getTokenComponents] of its token returns the
    key itself, field by field, the token being the key prefix, the short
    token and the long token joined by underscores. *)
Theorem round_trip (options : JS.value) (p : pool) (key : APIKey.t) (p' : pool) :
  generateAPIKey options p = (Ok key, p') ->
  getTokenComponents (APIKey.token key) = Ok (components_of key)
  /\ exists keyPrefix,
       JS.get options "keyPrefix" = JS.VStr keyPrefix
       /\ APIKey.token key
          = keyPrefix ++ "_" ++ APIKey.shortToken key
                      ++ "_" ++ APIKey.longToken key.
Proof.
  intros G. destruct (generated_extract _ _ _ _ G) as [ES EL].
  apply generateAPIKey_Ok in G as (_ & F & sb & lb & _ & _ & _ & ->).
  split.
  - unfold getTokenComponents. rewrite EL, ES.
    cbn [call_hashLongToken]. reflexivity.
  - destruct (assemble_token options sb lb F) as (kp & E & _ & T).
    exists kp; split; assumption.
Qed.

Lemma round_trip_witness :
  generateAPIKey (options_of []) (pool_ff 32) = (Ok default_key, [])
  /\ getTokenComponents (APIKey.token default_key) = Ok (components_of default_key).
Proof.
  assert (G : generateAPIKey (options_of []) (pool_ff 32) = (Ok default_key, []))
    by (vm_compute; reflexivity).
  split; [exact G | exact (proj1 (round_trip _ _ _ _ G))].
Defined.

Lemma checkAPIKey_spec_witness :
  generateAPIKey (options_of []) (pool_ff 32) = (Ok default_key, [])
  /\ checkAPIKey (APIKey.token default_key) (APIKey.longTokenHash default_key)
     = Ok true
  /\ checkAPIKey (APIKey.token default_key) "foo" = Ok false.
Proof.
  assert (G : generateAPIKey (options_of []) (pool_ff 32) = (Ok default_key, []))
    by (vm_compute; reflexivity).
  destruct (proj2 checkAPIKey_spec _ _ _ _ G) as [T F].
  split; [exact G|]. split; [exact T|].
  apply F. discriminate.
Defined.

(** C5: [generateAPIKey] fails with the error about the options object when
    the options are missing, and with the error about [keyPrefix] when the
    key prefix is absent, empty, not a string or has a character outside
    [a-z0-9_]; an error of a check is raised before any byte is drawn: the
    pool is left as it was and no key is returned. *)
Theorem validation_precedes_entropy (options : JS.value) (p : pool) :
  (JS.truthy options = false ->
   generateAPIKey options p = (Throw (Error msg_options), p))
  /\ (JS.truthy options = true ->
      keyPrefix_invalid (JS.get options "keyPrefix") ->
      generateAPIKey options p = (Throw (Error msg_keyPrefix), p))
  /\ (forall e p',
        generateAPIKey options p = (Throw e, p') ->
        validation_error e -> p' = p).
Proof.
  split; [|split].
  - intros H. apply validate_Some. unfold validate. now rewrite H.
  - intros H K. apply validate_Some. unfold validate. rewrite H. simpl negb.
    cbv iota.
    replace (bad_keyPrefix (JS.get options "keyPrefix")) with true; [reflexivity|].
    symmetry. unfold bad_keyPrefix.
    destruct K as [-> | [-> | [N | (s & -> & C)]]]; try reflexivity.
    + destruct (JS.get options "keyPrefix") as [| |b|n|s|props];
        try (simpl; now rewrite ?orb_true_r).
      now destruct (N s).
    + unfold JS.RegExp_test, JS.test_key_prefix. simpl JS.ToString.
      rewrite C, andb_false_r. now rewrite orb_true_r.
  - intros e p' G V.
    assert (M : exists message, e = Error message).
    { destruct V as [-> | [-> | [-> | [-> | ->]]]]; eexists; reflexivity. }
    destruct M as [message ->].
    now apply generateAPIKey_Error in G.
Qed.

Lemma validation_precedes_entropy_witness :
  JS.truthy JS.VUndefined = false
  /\ generateAPIKey JS.VUndefined (pool_ff 32)
     = (Throw (Error msg_options), pool_ff 32).
Proof.
  split; [reflexivity|].
  exact (proj1 (validation_precedes_entropy JS.VUndefined (pool_ff 32)) eq_refl).
Defined.

(** C4, as stated, fails: a short-token length of 4.5 is present and is not
    an integer, and the generation succeeds instead of raising the error
    about [shortTokenLength]. *)
Lemma fractional_length_accepted :
  JS.get fractional_options "shortTokenLength" = fraction 9 2
  /\ generateAPIKey fractional_options (pool_ff 32)
     = (Ok fractional_key, pool_ff 4)
  /\ generateAPIKey fractional_options (pool_ff 32)
     <> (Throw (Error msg_shortTokenLength), pool_ff 32).
Proof.
  assert (G : generateAPIKey fractional_options (pool_ff 32)
              = (Ok fractional_key, pool_ff 4)) by (vm_compute; reflexivity).
  split; [reflexivity|]. split; [exact G|].
  rewrite G. discriminate.
Qed.

(** C4 (amended): when the earlier checks pass and [shortTokenLength]
    (respectively [longTokenLength]) is truthy, [generateAPIKey] fails with
    the error that names the field and the range 4 to 24 exactly when the
    value is not a number from 4 to 24; the number need not be an integer,
    4.5 is accepted. *)
Theorem length_validation (options : JS.value) (p : pool) :
  JS.truthy options = true ->
  bad_keyPrefix (JS.get options "keyPrefix") = false ->
  bad_shortTokenPrefix (JS.get options "shortTokenPrefix") = false ->
  (JS.truthy (JS.get options "shortTokenLength") = true ->
   (number_in_range (JS.get options "shortTokenLength") = false ->
    generateAPIKey options p = (Throw (Error msg_shortTokenLength), p))
   /\ (number_in_range (JS.get options "shortTokenLength") = true ->
       fst (generateAPIKey options p) <> Throw (Error msg_shortTokenLength)))
  /\ (bad_length (JS.get options "shortTokenLength") = false ->
      JS.truthy (JS.get options "longTokenLength") = true ->
      (number_in_range (JS.get options "longTokenLength") = false ->
       generateAPIKey options p = (Throw (Error msg_longTokenLength), p))
      /\ (number_in_range (JS.get options "longTokenLength") = true ->
          fst (generateAPIKey options p) <> Throw (Error msg_longTokenLength)))
  /\ number_in_range (fraction 9 2) = true
  /\ number_in_range (JS.num 3) = false
  /\ number_in_range (JS.num 25) = false.
Proof.
  intros HO HK HP.
  assert (V : validate options =
              if bad_length (JS.get options "shortTokenLength")
              then Some msg_shortTokenLength
              else if bad_length (JS.get options "longTokenLength")
                   then Some msg_longTokenLength else None).
  { unfold validate. now rewrite HO, HK, HP. }
  split; [|split; [|repeat split]].
  - intros T. split; intros R.
    + apply validate_Some. rewrite V, bad_length_spec, T, R. reflexivity.
    + destruct (generateAPIKey options p) as [r p'] eqn:G. simpl. intros ->.
      apply generateAPIKey_Error in G as [G _].
      rewrite V, bad_length_spec, T, R in G. simpl in G.
      destruct (bad_length (JS.get options "longTokenLength")); discriminate G.
  - intros B T. split; intros R.
    + apply validate_Some. rewrite V, B, bad_length_spec, T, R. reflexivity.
    + destruct (generateAPIKey options p) as [r p'] eqn:G. simpl. intros ->.
      apply generateAPIKey_Error in G as [G _].
      rewrite V, B, bad_length_spec, T, R in G. discriminate G.
Qed.

Lemma length_validation_witness :
  JS.truthy (options_of [("shortTokenLength", JS.num 3)]) = true
  /\ generateAPIKey (options_of [("shortTokenLength", JS.num 3)]) (pool_ff 32)
     = (Throw (Error msg_shortTokenLength), pool_ff 32).
Proof.
  split; [reflexivity|].
  exact (proj1 (proj1 (length_validation
                         (options_of [("shortTokenLength", JS.num 3)])
                         (pool_ff 32) eq_refl eq_refl eq_refl) eq_refl) eq_refl).
Defined.

(** C1, as stated, fails: with both length options omitted the short token
    has 11 characters and the long token 33, not 8 and 24. *)
Lemma default_lengths_not_8_24 :
  JS.get (options_of []) "shortTokenLength" = JS.VUndefined
  /\ JS.get (options_of []) "longTokenLength" = JS.VUndefined
  /\ generateAPIKey (options_of []) (pool_ff 32) = (Ok default_key, [])
  /\ String.length (APIKey.shortToken default_key) <> 8%nat
  /\ String.length (APIKey.longToken default_key) <> 24%nat.
Proof.
  assert (G : generateAPIKey (options_of []) (pool_ff 32) = (Ok default_key, []))
    by (vm_compute; reflexivity).
  repeat split; try exact G; vm_compute; discriminate.
Qed.

(** C1 (amended): for every accepted options value, when [shortTokenLength]
    (respectively [longTokenLength]) is a number the token has as many
    characters as the integer part of that number, the encoded entropy being
    padded on the left with the character 0 up to that length and truncated
    to it; when the option is omitted, 8 (respectively 24) bytes are drawn
    and the token is their whole encoding, neither padded nor truncated. *)
Theorem generated_lengths (options : JS.value) (p : pool) (key : APIKey.t)
        (p' : pool) :
  generateAPIKey options p = (Ok key, p') ->
  exists shortTokenBytes longTokenBytes,
    p = (shortTokenBytes ++ longTokenBytes ++ p')%list
    /\ (forall q,
          JS.get options "shortTokenLength" = JS.VNum (JS.Finite q) ->
          let n := Z.to_nat (JS.trunc q) in
          let encoded := Bs58.encode shortTokenBytes in
          Z.of_nat (String.length (APIKey.shortToken key)) = JS.trunc q
          /\ APIKey.shortToken key
             = Str.take n (short_prefix options
                           ++ Str.take n (Str.repeat "0" (n - String.length encoded)
                                          ++ encoded)))
    /\ (forall q,
          JS.get options "longTokenLength" = JS.VNum (JS.Finite q) ->
          let n := Z.to_nat (JS.trunc q) in
          let encoded := Bs58.encode longTokenBytes in
          Z.of_nat (String.length (APIKey.longToken key)) = JS.trunc q
          /\ APIKey.longToken key
             = Str.take n (Str.repeat "0" (n - String.length encoded) ++ encoded))
    /\ (JS.get options "shortTokenLength" = JS.VUndefined ->
        List.length shortTokenBytes = 8%nat
        /\ APIKey.shortToken key
           = short_prefix options ++ Bs58.encode shortTokenBytes)
    /\ (JS.get options "longTokenLength" = JS.VUndefined ->
        List.length longTokenBytes = 24%nat
        /\ APIKey.longToken key = Bs58.encode longTokenBytes).
Proof.
  intros G.
  apply generateAPIKey_Ok in G as (_ & _ & sb & lb & D1 & D2 & E & ->).
  apply drawn_count in D1 as [U1 N1]. apply drawn_count in D2 as [U2 N2].
  exists sb, lb. split; [exact E|]. simpl. repeat split.
  - rewrite H. destruct (N1 q H) as [Hq _].
    rewrite String_slice_num, normalise_num by exact Hq.
    rewrite length_take, length_append, length_pad_take. lia.
  - rewrite H. destruct (N1 q H) as [Hq _].
    now rewrite String_slice_num, normalise_num by exact Hq.
  - rewrite H. destruct (N2 q H) as [Hq _].
    rewrite normalise_num by exact Hq. rewrite length_pad_take. lia.
  - rewrite H. destruct (N2 q H) as [Hq _].
    now rewrite normalise_num by exact Hq.
  - now apply U1.
  - rewrite H. now rewrite normalise_undefined, String_slice_undefined.
  - now apply U2.
  - rewrite H. now rewrite normalise_undefined.
Qed.

Lemma generated_lengths_witness :
  generateAPIKey sized_options (pool_ff 32) = (Ok sized_key, pool_ff 2)
  /\ exists shortTokenBytes longTokenBytes,
       pool_ff 32 = (shortTokenBytes ++ longTokenBytes ++ pool_ff 2)%list
       /\ Z.of_nat (String.length (APIKey.shortToken sized_key)) = 6
       /\ Z.of_nat (String.length (APIKey.longToken sized_key)) = 24.
Proof.
  assert (G : generateAPIKey sized_options (pool_ff 32)
              = (Ok sized_key, pool_ff 2)) by (vm_compute; reflexivity).
  split; [exact G|].
  destruct (generated_lengths _ _ _ _ G) as (sb & lb & E & S & L & _).
  exists sb, lb. split; [exact E|]. split.
  - exact (proj1 (S (inject_Z 6) eq_refl)).
  - exact (proj1 (L (inject_Z 24) eq_refl)).
Defined.

(** C7, as stated, fails: with the short-token prefix myprefix123 and no
    [shortTokenLength] the short token is the prefix followed by the whole
    encoding, 22 characters, beyond the default length of 8. *)
Lemma default_prefix_extends :
  JS.get prefixed_options "shortTokenPrefix" = JS.VStr "myprefix123"
  /\ JS.get prefixed_options "shortTokenLength" = JS.VUndefined
  /\ generateAPIKey prefixed_options (pool_ff 32) = (Ok prefixed_key, [])
  /\ ~ (String.length (APIKey.shortToken prefixed_key) <= 8)%nat.
Proof.
  assert (G : generateAPIKey prefixed_options (pool_ff 32) = (Ok prefixed_key, []))
    by (vm_compute; reflexivity).
  repeat split; try exact G. vm_compute. lia.
Qed.

(** C7 (amended): for every accepted options value with a short-token
    prefix, when [shortTokenLength] is a number the short token is the
    prefix followed by the encoded short token, the whole truncated to the
    integer part of that number, so the prefix uses part of the length and
    never extends it; when [shortTokenLength] is omitted the short token is
    the prefix followed by the whole encoding, not truncated; in both cases
    the short token starts with the prefix or is a prefix of it. *)
Theorem short_token_prefix (options : JS.value) (p : pool) (key : APIKey.t)
        (p' : pool) (shortTokenPrefix : string) :
  generateAPIKey options p = (Ok key, p') ->
  JS.get options "shortTokenPrefix" = JS.VStr shortTokenPrefix ->
  exists shortTokenBytes longTokenBytes,
    p = (shortTokenBytes ++ longTokenBytes ++ p')%list
    /\ (forall q,
          JS.get options "shortTokenLength" = JS.VNum (JS.Finite q) ->
          let n := Z.to_nat (JS.trunc q) in
          let encoded := Bs58.encode shortTokenBytes in
          APIKey.shortToken key
          = Str.take n (shortTokenPrefix
                        ++ Str.take n (Str.repeat "0" (n - String.length encoded)
                                       ++ encoded))
          /\ String.length (APIKey.shortToken key) = n)
    /\ (JS.get options "shortTokenLength" = JS.VUndefined ->
        List.length shortTokenBytes = 8%nat
        /\ APIKey.shortToken key
           = shortTokenPrefix ++ Bs58.encode shortTokenBytes)
    /\ (Str.starts_with shortTokenPrefix (APIKey.shortToken key) = true
        \/ Str.starts_with (APIKey.shortToken key) shortTokenPrefix = true).
Proof.
  intros G P.
  apply generateAPIKey_Ok in G as (_ & _ & sb & lb & D1 & _ & E & ->).
  apply drawn_count in D1 as [U N].
  exists sb, lb. split; [exact E|]. simpl.
  rewrite (short_prefix_given _ _ P). repeat split.
  - rewrite H. destruct (N q H) as [Hq _].
    now rewrite String_slice_num, normalise_num by exact Hq.
  - rewrite H. destruct (N q H) as [Hq _].
    rewrite String_slice_num, normalise_num by exact Hq.
    rewrite length_take, length_append, length_pad_take. lia.
  - now apply U.
  - rewrite H. now rewrite normalise_undefined, String_slice_undefined.
  - destruct (String_slice_take
                (shortTokenPrefix
                 ++ normalise (Bs58.encode sb) (JS.get options "shortTokenLength"))
                (JS.get options "shortTokenLength")) as [k ->].
    apply take_prefixed.
Qed.

Lemma short_token_prefix_witness :
  generateAPIKey sized_options (pool_ff 32) = (Ok sized_key, pool_ff 2)
  /\ JS.get sized_options "shortTokenPrefix" = JS.VStr "abcd"
  /\ (Str.starts_with "abcd" (APIKey.shortToken sized_key) = true
      \/ Str.starts_with (APIKey.shortToken sized_key) "abcd" = true).
Proof.
  assert (G : generateAPIKey sized_options (pool_ff 32)
              = (Ok sized_key, pool_ff 2)) by (vm_compute; reflexivity).
  split; [exact G|]. split; [reflexivity|].
  destruct (short_token_prefix _ _ _ _ "abcd" G eq_refl)
    as (sb & lb & _ & _ & _ & S).
  exact S.
Defined.

(** * Further properties of the module *)

Module MoreFacts.

Lemma count_append (c : ascii) (a b : string) :
  Str.count c (a ++ b) = (Str.count c a + Str.count c b)%nat.
Proof. induction a as [|d a IH]; simpl; [reflexivity | rewrite IH; lia]. Qed.

Lemma length_0_empty (s : string) : String.length s = O -> s = "".
Proof. destruct s; [reflexivity | discriminate]. Qed.

(** What precedes the last underscore is parsed like a token of its own:
    its last segment is the short token. *)
Lemma extract_before_last (pre l : string) :
  Str.free "_" l = true ->
  extractShortToken (pre ++ "_" ++ l) = extractLongToken pre
  /\ extractLongToken (pre ++ "_" ++ l) = Some l.
Proof.
  intros Hl. unfold extractShortToken, extractLongToken.
  change (pre ++ "_" ++ l) with (pre ++ String "_" l).
  rewrite split_append, (split_free _ _ Hl).
  destruct (exists_last (split_nonempty "_" pre)) as (segs & x & ->).
  split.
  - rewrite <- app_assoc. change ([x] ++ [l])%list with [x; l].
    now rewrite slice_before_last2, slice_last.
  - now rewrite slice_last.
Qed.

(** The tokens of an assembled key when the length option is a number. *)
Lemma assemble_num (options : JS.value) (sb lb : list byte) :
  (forall q, JS.get options "shortTokenLength" = JS.VNum (JS.Finite q) ->
             0 <= JS.trunc q ->
             APIKey.shortToken (assemble options sb lb)
             = Str.take (Z.to_nat (JS.trunc q))
                 (short_prefix options
                  ++ normalise (Bs58.encode sb) (JS.VNum (JS.Finite q))))
  /\ (forall q, JS.get options "longTokenLength" = JS.VNum (JS.Finite q) ->
                APIKey.longToken (assemble options sb lb)
                = normalise (Bs58.encode lb) (JS.VNum (JS.Finite q))).
Proof.
  split; intros q E; simpl; rewrite E; [|reflexivity].
  intros Hq. now rewrite String_slice_num.
Qed.

(** A successful generation has drawn [byte_count] bytes for each token. *)
Lemma drawn_byte_count (length : JS.value) (d : Z) (p : pool)
      (bytes : list byte) (p' : pool) :
  randomBytes (JS.nullish_or length (JS.num d)) p = (Ok bytes, p') ->
  List.length bytes = byte_count length d.
Proof.
  intros D. apply randomBytes_Ok in D as (q & E & _ & L & _).
  destruct length as [| |b|[|neg|q']|s|props]; simpl in E; try discriminate E;
    injection E as <-; unfold byte_count; now rewrite L, ?trunc_inject_Z.
Qed.

(** A draw of a finite, non-negative, small number of bytes takes them from
    the front of the pool, and fails exactly when the pool is too short. *)
Lemma randomBytes_exact (q : Q) (p : pool) :
  (0 <= q)%Q -> (q <= 24)%Q ->
  randomBytes (JS.VNum (JS.Finite q)) p
  = let n := Z.to_nat (JS.trunc q) in
    if (n <=? List.length p)%nat then (Ok (firstn n p), skipn n p)
    else (Throw EntropyFailure, p).
Proof.
  intros L H. unfold randomBytes.
  replace (JS.lt (JS.Finite q) (JS.Finite 0)) with false
    by (symmetry; apply negb_false_iff, Qle_bool_iff; exact L).
  replace (JS.gt (JS.Finite q) (JS.Finite (inject_Z kMaxPossibleLength)))
    with false; [reflexivity|].
  symmetry. apply negb_false_iff, Qle_bool_iff.
  apply Qle_trans with (1 := H). unfold Qle; simpl. lia.
Qed.

(** The size asked of [randomBytes] for an accepted length option of the
    declared type is a number from 0 to 24. *)
Lemma requested_size (length : JS.value) (d : Z) :
  bad_length length = false -> length_typed length -> 0 <= d <= 24 ->
  exists q, JS.nullish_or length (JS.num d) = JS.VNum (JS.Finite q)
            /\ (0 <= q)%Q /\ (q <= 24)%Q
            /\ Z.to_nat (JS.trunc q) = byte_count length d.
Proof.
  intros B [-> | [q ->]] D; simpl JS.nullish_or.
  - exists (inject_Z d). unfold byte_count. rewrite trunc_inject_Z.
    repeat split; unfold Qle; simpl; lia.
  - exists q. split; [reflexivity|].
    rewrite bad_length_spec in B. simpl in B.
    destruct (JS.is_zero q) eqn:Z; simpl in B.
    + apply Qeq_bool_iff in Z. repeat split; rewrite Z; unfold Qle; simpl; lia.
    + apply negb_false_iff, andb_true_iff in B as [B1 B2].
      apply Qle_bool_iff in B1, B2. repeat split; [|exact B2].
      apply Qle_trans with (2 := B1). unfold Qle; simpl; lia.
Qed.

Lemma lower_digit_underscore_token_char (c : ascii) :
  JS.lower_digit_or_underscore c = true -> is_token_char c = true.
Proof.
  destruct c as [[] [] [] [] [] [] [] []]; vm_compute; intros H;
    (reflexivity || discriminate H).
Qed.

Lemma lower_digit_token_char (c : ascii) :
  JS.lower_or_digit c = true -> is_token_char c = true.
Proof.
  destruct c as [[] [] [] [] [] [] [] []]; vm_compute; intros H;
    (reflexivity || discriminate H).
Qed.

(** The encoder writes characters of its alphabet only. *)
Lemma encode_forallb (p : ascii -> bool) (source : list byte) :
  Str.forallb p Bs58.ALPHABET = true ->
  Str.forallb p (Bs58.encode source) = true.
Proof.
  intros A. unfold Bs58.encode.
  destruct (Bs58.skip_zeroes source) as [zeroes tail].
  rewrite forallb_append. apply andb_true_iff; split.
  - apply forallb_repeat.
    exact (forallb_get p Bs58.ALPHABET O Bs58.LEADER A eq_refl).
  - induction (rev (Bs58.digits tail)) as [|d ds IH]; [reflexivity|].
    cbn [Bs58.translate]. rewrite forallb_append, IH, andb_true_r.
    unfold Bs58.charAt. destruct (d <? 0); [reflexivity|].
    destruct (String.get _ _) as [c|] eqn:G; [|reflexivity].
    cbn [Str.forallb]. now rewrite (forallb_get _ _ _ _ A G).
Qed.

Lemma normalise_forallb (p : ascii -> bool) (encoded : string) (v : JS.value) :
  p "0"%char = true -> Str.forallb p encoded = true ->
  Str.forallb p (normalise encoded v) = true.
Proof.
  intros P0 H. unfold normalise.
  destruct (padStart_repeat encoded v "0") as [k ->].
  destruct (String_slice_take (Str.repeat "0" k ++ encoded) v) as [n ->].
  apply forallb_take. rewrite forallb_append, H, andb_true_r.
  now apply forallb_repeat.
Qed.

End MoreFacts.

Import MoreFacts.

(** X1: [extractLongTokenHash] never throws: it returns the digest of the
    last segment of the token; [checkAPIKey] is true exactly on the hash it
    returns, and on the token of a generated key it returns the key's
    [longTokenHash], which is the hash of the key's [longToken]. *)
Theorem long_token_hash_extraction :
  (forall t,
      (exists l, last_segment t l
                 /\ extractLongTokenHash t = Ok (hashLongToken l))
      /\ forall h, checkAPIKey t h = Ok true <-> extractLongTokenHash t = Ok h)
  /\ (forall options p key p',
        generateAPIKey options p = (Ok key, p') ->
        extractLongTokenHash (APIKey.token key) = Ok (APIKey.longTokenHash key)
        /\ APIKey.longTokenHash key = hashLongToken (APIKey.longToken key)).
Proof.
  split.
  - intros t. destruct (extractLongToken_last t) as (l & L & E).
    unfold extractLongTokenHash, checkAPIKey. rewrite E.
    cbn [call_hashLongToken].
    split; [exists l; split; [exact L | reflexivity]|].
    generalize (hashLongToken l); intros d.
    intros h; split.
    + intros [= H]. apply String.eqb_eq in H. now subst.
    + intros [= ->]. now rewrite String.eqb_refl.
  - intros options p key p' G.
    destruct (generated_extract _ _ _ _ G) as [_ EL].
    apply generateAPIKey_Ok in G as (_ & _ & sb & lb & _ & _ & _ & K).
    assert (HK : APIKey.longTokenHash key = hashLongToken (APIKey.longToken key))
      by (rewrite K; reflexivity).
    unfold extractLongTokenHash. rewrite EL. cbn [call_hashLongToken].
    now rewrite HK.
Qed.

Lemma long_token_hash_extraction_witness :
  generateAPIKey (options_of []) (pool_ff 32) = (Ok default_key, [])
  /\ extractLongTokenHash (APIKey.token default_key)
     = Ok (APIKey.longTokenHash default_key).
Proof.
  assert (G : generateAPIKey (options_of []) (pool_ff 32) = (Ok default_key, []))
    by (vm_compute; reflexivity).
  split; [exact G|].
  exact (proj1 (proj2 long_token_hash_extraction _ _ _ _ G)).
Defined.

(** X2: when the checks of the options object and of [keyPrefix] pass, a
    truthy [shortTokenPrefix] makes [generateAPIKey] fail with the error
    about [shortTokenPrefix], the pool untouched, exactly when it is not a
    non-empty string of lower-case letters and digits; a falsy one (absent,
    empty, [null]) is never rejected and no prefix is prepended. *)
Theorem shortTokenPrefix_validation (options : JS.value) (p : pool) :
  JS.truthy options = true ->
  bad_keyPrefix (JS.get options "keyPrefix") = false ->
  (JS.truthy (JS.get options "shortTokenPrefix") = true ->
   (shortTokenPrefix_valid (JS.get options "shortTokenPrefix") = false <->
    generateAPIKey options p = (Throw (Error msg_shortTokenPrefix), p)))
  /\ (JS.truthy (JS.get options "shortTokenPrefix") = false ->
      fst (generateAPIKey options p) <> Throw (Error msg_shortTokenPrefix)
      /\ short_prefix options = "").
Proof.
  intros HO HK.
  assert (V : validate options =
              if bad_shortTokenPrefix (JS.get options "shortTokenPrefix")
              then Some msg_shortTokenPrefix
              else if bad_length (JS.get options "shortTokenLength")
                   then Some msg_shortTokenLength
                   else if bad_length (JS.get options "longTokenLength")
                        then Some msg_longTokenLength else None).
  { unfold validate. now rewrite HO, HK. }
  assert (B : bad_shortTokenPrefix (JS.get options "shortTokenPrefix")
              = JS.truthy (JS.get options "shortTokenPrefix")
                && negb (shortTokenPrefix_valid (JS.get options "shortTokenPrefix"))).
  { unfold bad_shortTokenPrefix, shortTokenPrefix_valid.
    destruct (JS.get options "shortTokenPrefix") as [| |b|n|s|props];
      simpl; reflexivity. }
  split.
  - intros T. split.
    + intros I. apply validate_Some. now rewrite V, B, T, I.
    + intros G. apply generateAPIKey_Error in G as [G _].
      rewrite V, B, T in G. simpl in G.
      destruct (shortTokenPrefix_valid _); [|reflexivity]. simpl in G.
      destruct (bad_length (JS.get options "shortTokenLength"));
        [discriminate G|].
      destruct (bad_length (JS.get options "longTokenLength")); discriminate G.
  - intros F. split.
    + destruct (generateAPIKey options p) as [r p'] eqn:G. simpl. intros ->.
      apply generateAPIKey_Error in G as [G _].
      rewrite V, B, F in G. simpl in G.
      destruct (bad_length (JS.get options "shortTokenLength"));
        [discriminate G|].
      destruct (bad_length (JS.get options "longTokenLength")); discriminate G.
    + unfold short_prefix. now rewrite F.
Qed.

Lemma shortTokenPrefix_validation_witness :
  JS.truthy (options_of [("shortTokenPrefix", JS.VStr "foo*bar")]) = true
  /\ generateAPIKey (options_of [("shortTokenPrefix", JS.VStr "foo*bar")])
                    (pool_ff 32)
     = (Throw (Error msg_shortTokenPrefix), pool_ff 32).
Proof.
  split; [reflexivity|].
  exact (proj1 (proj1 (shortTokenPrefix_validation
                         (options_of [("shortTokenPrefix", JS.VStr "foo*bar")])
                         (pool_ff 32) eq_refl eq_refl) eq_refl) eq_refl).
Defined.

(** X3: [getTokenComponents] never throws, whatever the string: the long
    token is the last segment, the hash is its digest, the token is returned
    as given, and the short token is [undefined] exactly when the string has
    no underscore. *)
Theorem getTokenComponents_total (t : string) :
  exists l,
    last_segment t l
    /\ getTokenComponents t =
       Ok {| TokenComponents.longToken := Some l;
             TokenComponents.shortToken := extractShortToken t;
             TokenComponents.longTokenHash := Sha256.hex_digest l;
             TokenComponents.token := t |}
    /\ (extractShortToken t = None <-> Str.free "_" t = true).
Proof.
  destruct (extractLongToken_last t) as (l & L & E).
  exists l. split; [exact L|]. split.
  - unfold getTokenComponents. rewrite E. reflexivity.
  - split.
    + intros N. apply free_count.
      destruct (Nat.eq_dec (Str.count "_" t) 0) as [Z|NZ]; [exact Z|].
      destruct (last_separator "_" t) as (pre & l' & -> & Hl & _); [lia|].
      destruct (extract_before_last pre l' Hl) as [ES _].
      change (pre ++ "_" ++ l') with (pre ++ String "_" l') in ES.
      rewrite ES in N.
      destruct (extractLongToken_last pre) as (x & _ & EX). congruence.
    + intros F. now apply extract_whole.
Qed.

(** X4: the short token is the last segment of what precedes the last
    underscore: for [l] without underscore, [extractShortToken] of
    [pre_l] is [extractLongToken] of [pre]; so a token with a single
    underscore has its first segment reported as short token. *)
Theorem short_token_of_rest (pre l : string) :
  Str.free "_" l = true ->
  extractShortToken (pre ++ "_" ++ l) = extractLongToken pre
  /\ extractLongToken (pre ++ "_" ++ l) = Some l
  /\ (Str.free "_" pre = true -> extractShortToken (pre ++ "_" ++ l) = Some pre).
Proof.
  intros Hl. destruct (extract_before_last pre l Hl) as [ES EL].
  repeat split; try assumption.
  intros Hp. rewrite ES. now apply extract_whole.
Qed.

Lemma short_token_of_rest_witness :
  Str.free "_" "secret" = true
  /\ extractShortToken ("company" ++ "_" ++ "secret") = Some "company".
Proof.
  split; [reflexivity|].
  exact (proj2 (proj2 (short_token_of_rest "company" "secret" eq_refl)) eq_refl).
Defined.

(** X5: [checkAPIKey] looks at the long token only: the key prefix and the
    short token of the presented token have no influence on the result. *)
Theorem checkAPIKey_ignores_prefix (pre l h : string) :
  Str.free "_" l = true ->
  checkAPIKey (pre ++ "_" ++ l) h = checkAPIKey l h
  /\ checkAPIKey l h = Ok (String.eqb (hashLongToken l) h).
Proof.
  intros Hl. destruct (extract_before_last pre l Hl) as [_ EL].
  destruct (extract_whole l Hl) as [EW _].
  unfold checkAPIKey. rewrite EL, EW. split; reflexivity.
Qed.

Lemma checkAPIKey_ignores_prefix_witness :
  Str.free "_" "51FwqftsmMDHHbJAMEXXHCgG" = true
  /\ checkAPIKey ("other_prefix_XXXXXXXX" ++ "_" ++ "51FwqftsmMDHHbJAMEXXHCgG")
                 known_hash
     = checkAPIKey "51FwqftsmMDHHbJAMEXXHCgG" known_hash.
Proof.
  split; [reflexivity|].
  exact (proj1 (checkAPIKey_ignores_prefix "other_prefix_XXXXXXXX"
                  "51FwqftsmMDHHbJAMEXXHCgG" known_hash eq_refl)).
Defined.

(** X6: the token of a generated key has exactly two underscores more than
    its key prefix: the two delimiters, none inside the short or the long
    token. *)
Theorem token_underscores (options : JS.value) (p : pool) (key : APIKey.t)
        (p' : pool) :
  generateAPIKey options p = (Ok key, p') ->
  exists keyPrefix,
    JS.get options "keyPrefix" = JS.VStr keyPrefix
    /\ Str.count "_" (APIKey.token key) = (Str.count "_" keyPrefix + 2)%nat
    /\ Str.count "_" (APIKey.shortToken key) = O
    /\ Str.count "_" (APIKey.longToken key) = O.
Proof.
  intros G.
  apply generateAPIKey_Ok in G as (_ & F & sb & lb & _ & _ & _ & ->).
  destruct (assemble_token options sb lb F) as (kp & E & _ & T).
  destruct (assemble_free options sb lb F) as [Hs Hl].
  apply free_count in Hs, Hl.
  exists kp. split; [exact E|]. split; [|now split].
  rewrite T.
  change (kp ++ "_" ++ APIKey.shortToken (assemble options sb lb)
             ++ "_" ++ APIKey.longToken (assemble options sb lb))
    with (kp ++ String "_" (APIKey.shortToken (assemble options sb lb)
                            ++ String "_" (APIKey.longToken (assemble options sb lb)))).
  rewrite count_append. cbn [Str.count]. rewrite count_append. cbn [Str.count].
  rewrite Hs, Hl. simpl. lia.
Qed.

Lemma token_underscores_witness :
  generateAPIKey (options_of []) (pool_ff 32) = (Ok default_key, [])
  /\ exists keyPrefix,
       JS.get (options_of []) "keyPrefix" = JS.VStr keyPrefix
       /\ Str.count "_" (APIKey.token default_key)
          = (Str.count "_" keyPrefix + 2)%nat.
Proof.
  assert (G : generateAPIKey (options_of []) (pool_ff 32) = (Ok default_key, []))
    by (vm_compute; reflexivity).
  split; [exact G|].
  destruct (token_underscores _ _ _ _ G) as (kp & E & C & _).
  exists kp. split; assumption.
Defined.

(** X7: every character of the token of a generated key is a letter, a
    digit or an underscore. *)
Theorem token_charset (options : JS.value) (p : pool) (key : APIKey.t)
        (p' : pool) :
  generateAPIKey options p = (Ok key, p') ->
  Str.forallb is_token_char (APIKey.token key) = true.
Proof.
  intros G.
  apply generateAPIKey_Ok in G as (_ & F & sb & lb & _ & _ & _ & ->).
  destruct (accepted_prefixes _ F) as [(kp & E & T) SP].
  assert (A : Str.forallb is_token_char Bs58.ALPHABET = true) by reflexivity.
  assert (N : forall bytes v,
             Str.forallb is_token_char (normalise (Bs58.encode bytes) v) = true).
  { intros bytes v. apply normalise_forallb; [reflexivity|].
    now apply encode_forallb. }
  assert (P : Str.forallb is_token_char (short_prefix options) = true).
  { unfold short_prefix. destruct SP as [Fs | (sp & Es & Ts)].
    - now rewrite Fs.
    - rewrite Es. destruct (JS.truthy (JS.VStr sp)); [|reflexivity]. simpl.
      apply andb_true_iff in Ts as [_ Ts].
      exact (forallb_impl _ _ _ lower_digit_token_char Ts). }
  simpl. rewrite E. simpl JS.ToString.
  apply andb_true_iff in T as [_ T].
  rewrite forallb_append, (forallb_impl _ _ _ lower_digit_underscore_token_char T).
  cbn [append Str.forallb andb].
  destruct (String_slice_take
              (short_prefix options
               ++ normalise (Bs58.encode sb) (JS.get options "shortTokenLength"))
              (JS.get options "shortTokenLength")) as [k ->].
  rewrite forallb_append. cbn [Str.forallb].
  rewrite forallb_take by (now rewrite forallb_append, P, N).
  now rewrite N.
Qed.

Lemma token_charset_witness :
  generateAPIKey (options_of []) (pool_ff 32) = (Ok default_key, [])
  /\ Str.forallb is_token_char (APIKey.token default_key) = true.
Proof.
  assert (G : generateAPIKey (options_of []) (pool_ff 32) = (Ok default_key, []))
    by (vm_compute; reflexivity).
  split; [exact G | exact (token_charset _ _ _ _ G)].
Defined.

(** X8: a length option equal to 0 is not rejected: a generated key then has
    the empty string as short token, respectively as long token, and the
    hash of an empty long token is the digest of the empty string. *)
Theorem zero_length_tokens (options : JS.value) (p : pool) (key : APIKey.t)
        (p' : pool) :
  generateAPIKey options p = (Ok key, p') ->
  (forall q, JS.get options "shortTokenLength" = JS.VNum (JS.Finite q) ->
             (q == 0)%Q -> APIKey.shortToken key = "")
  /\ (forall q, JS.get options "longTokenLength" = JS.VNum (JS.Finite q) ->
                (q == 0)%Q ->
                APIKey.longToken key = ""
                /\ APIKey.longTokenHash key = Sha256.hex_digest "").
Proof.
  intros G.
  apply generateAPIKey_Ok in G as (_ & _ & sb & lb & _ & _ & _ & ->).
  destruct (assemble_num options sb lb) as [S L].
  assert (Z : forall q, (q == 0)%Q -> JS.trunc q = 0)
    by (intros q Hq; now apply trunc_zero, Qeq_bool_iff).
  split.
  - intros q E Hq. rewrite (S q E) by (rewrite (Z q Hq); lia).
    now rewrite (Z q Hq).
  - intros q E Hq.
    assert (EL : APIKey.longToken (assemble options sb lb) = "").
    { rewrite (L q E), normalise_num by (rewrite (Z q Hq); lia).
      now rewrite (Z q Hq). }
    split; [exact EL|].
    change (APIKey.longTokenHash (assemble options sb lb))
      with (hashLongToken (APIKey.longToken (assemble options sb lb))).
    now rewrite EL.
Qed.

Lemma zero_length_tokens_witness :
  generateAPIKey (options_of [("longTokenLength", JS.num 0)]) (pool_ff 32)
  = (Ok {| APIKey.shortToken := "jpXCZedGfVQ";
           APIKey.longToken := "";
           APIKey.longTokenHash :=
             "e3b0c44298fc1c149afbf4c8996fb92427ae41e4649b934ca495991b7852b855";
           APIKey.token := "my_company_jpXCZedGfVQ_" |}, pool_ff 24)
  /\ "e3b0c44298fc1c149afbf4c8996fb92427ae41e4649b934ca495991b7852b855"
     = Sha256.hex_digest "".
Proof.
  assert (G : generateAPIKey (options_of [("longTokenLength", JS.num 0)])
                             (pool_ff 32)
              = (Ok {| APIKey.shortToken := "jpXCZedGfVQ";
                       APIKey.longToken := "";
                       APIKey.longTokenHash :=
                         "e3b0c44298fc1c149afbf4c8996fb92427ae41e4649b934ca495991b7852b855";
                       APIKey.token := "my_company_jpXCZedGfVQ_" |}, pool_ff 24))
    by (vm_compute; reflexivity).
  split; [exact G|].
  exact (proj2 (proj2 (zero_length_tokens _ _ _ _ G) 0%Q eq_refl
                      (Qeq_refl 0))).
Defined.

(** X9: when the short-token prefix is at least as long as a numeric
    [shortTokenLength], the short token is the beginning of the prefix alone:
    nothing of the random bytes is left in it. *)
Theorem prefix_fills_short_token (options : JS.value) (p : pool)
        (key : APIKey.t) (p' : pool) (shortTokenPrefix : string) (q : Q) :
  generateAPIKey options p = (Ok key, p') ->
  JS.get options "shortTokenPrefix" = JS.VStr shortTokenPrefix ->
  JS.get options "shortTokenLength" = JS.VNum (JS.Finite q) ->
  JS.trunc q <= Z.of_nat (String.length shortTokenPrefix) ->
  APIKey.shortToken key = Str.take (Z.to_nat (JS.trunc q)) shortTokenPrefix.
Proof.
  intros G P E H.
  apply generateAPIKey_Ok in G as (_ & _ & sb & lb & D1 & _ & _ & ->).
  apply drawn_count in D1 as [_ N]. destruct (N q E) as [Hq _].
  rewrite (proj1 (assemble_num options sb lb) q E Hq).
  rewrite (short_prefix_given _ _ P). apply take_append_le. lia.
Qed.

Lemma prefix_fills_short_token_witness :
  generateAPIKey (options_of [("shortTokenPrefix", JS.VStr "myprefix123");
                              ("shortTokenLength", JS.num 8)]) (pool_ff 32)
  = (Ok {| APIKey.shortToken := "myprefix";
           APIKey.longToken := "QLbz7JHiBTspS962RLKV8GndWFwiEaqKL";
           APIKey.longTokenHash :=
             "bd9a925d5fa9a88f306b2fd60e76630bd53a4842f7e411f9882000ac29485874";
           APIKey.token :=
             "my_company_myprefix_QLbz7JHiBTspS962RLKV8GndWFwiEaqKL" |}, [])
  /\ "myprefix" = Str.take 8 "myprefix123".
Proof.
  assert (G : generateAPIKey
                (options_of [("shortTokenPrefix", JS.VStr "myprefix123");
                             ("shortTokenLength", JS.num 8)]) (pool_ff 32)
              = (Ok {| APIKey.shortToken := "myprefix";
                       APIKey.longToken := "QLbz7JHiBTspS962RLKV8GndWFwiEaqKL";
                       APIKey.longTokenHash :=
                         "bd9a925d5fa9a88f306b2fd60e76630bd53a4842f7e411f9882000ac29485874";
                       APIKey.token :=
                         "my_company_myprefix_QLbz7JHiBTspS962RLKV8GndWFwiEaqKL" |},
                 [])) by (vm_compute; reflexivity).
  split; [exact G|].
  exact (prefix_fills_short_token _ _ _ _ "myprefix123" (inject_Z 8) G
           eq_refl eq_refl ltac:(vm_compute; discriminate)).
Defined.

(** X10: a successful generation draws the bytes of the short token first,
    then those of the long token, [shortTokenLength ?? 8] and
    [longTokenLength ?? 24] of them (integer parts), takes nothing else from
    the entropy source, and the key is a function of the options and of
    these bytes. *)
Theorem entropy_drawn (options : JS.value) (p : pool) (key : APIKey.t)
        (p' : pool) :
  generateAPIKey options p = (Ok key, p') ->
  exists shortTokenBytes longTokenBytes,
    p = (shortTokenBytes ++ longTokenBytes ++ p')%list
    /\ List.length shortTokenBytes
       = byte_count (JS.get options "shortTokenLength") 8
    /\ List.length longTokenBytes
       = byte_count (JS.get options "longTokenLength") 24
    /\ key = assemble options shortTokenBytes longTokenBytes.
Proof.
  intros G.
  apply generateAPIKey_Ok in G as (_ & _ & sb & lb & D1 & D2 & E & K).
  exists sb, lb. repeat split; try assumption.
  - exact (drawn_byte_count _ _ _ _ _ D1).
  - exact (drawn_byte_count _ _ _ _ _ D2).
Qed.

Lemma entropy_drawn_witness :
  generateAPIKey sized_options (pool_ff 32) = (Ok sized_key, pool_ff 2)
  /\ exists shortTokenBytes longTokenBytes,
       pool_ff 32 = (shortTokenBytes ++ longTokenBytes ++ pool_ff 2)%list
       /\ List.length shortTokenBytes = 6%nat
       /\ List.length longTokenBytes = 24%nat.
Proof.
  assert (G : generateAPIKey sized_options (pool_ff 32)
              = (Ok sized_key, pool_ff 2)) by (vm_compute; reflexivity).
  split; [exact G|].
  destruct (entropy_drawn _ _ _ _ G) as (sb & lb & E & S & L & _).
  exists sb, lb. repeat split; assumption.
Defined.

(** X11: for options that pass the five checks and whose length options are
    omitted or finite numbers, [generateAPIKey] returns a key exactly when
    the entropy source delivers the bytes of both draws; otherwise it fails
    with the failure of the source and returns no key. *)
Theorem generation_succeeds (options : JS.value) (p : pool) :
  validate options = None ->
  length_typed (JS.get options "shortTokenLength") ->
  length_typed (JS.get options "longTokenLength") ->
  let needed := (byte_count (JS.get options "shortTokenLength") 8
                 + byte_count (JS.get options "longTokenLength") 24)%nat in
  ((needed <= List.length p)%nat ->
   exists key, generateAPIKey options p = (Ok key, skipn needed p))
  /\ ((List.length p < needed)%nat ->
      fst (generateAPIKey options p) = Throw EntropyFailure).
Proof.
  intros V TS TL. rewrite generateAPIKey_run. unfold validate in V.
  destruct (negb (JS.truthy options)); [discriminate|].
  destruct (bad_keyPrefix _); [discriminate|].
  destruct (bad_shortTokenPrefix _); [discriminate|].
  destruct (bad_length (JS.get options "shortTokenLength")) eqn:BS; [discriminate|].
  destruct (bad_length (JS.get options "longTokenLength")) eqn:BL; [discriminate|].
  destruct (requested_size _ 8 BS TS) as (q1 & -> & L1 & H1 & <-); [lia|].
  destruct (requested_size _ 24 BL TL) as (q2 & -> & L2 & H2 & <-); [lia|].
  set (n1 := Z.to_nat (JS.trunc q1)). set (n2 := Z.to_nat (JS.trunc q2)).
  cbv zeta. rewrite (randomBytes_exact q1 p L1 H1). fold n1. cbv zeta.
  destruct (n1 <=? List.length p)%nat eqn:E1.
  - apply Nat.leb_le in E1.
    rewrite (randomBytes_exact q2 (skipn n1 p) L2 H2). fold n2. cbv zeta.
    rewrite length_skipn.
    destruct (n2 <=? List.length p - n1)%nat eqn:E2.
    + apply Nat.leb_le in E2. split; [|lia].
      intros _. eexists. now rewrite skipn_skipn, (Nat.add_comm n2 n1).
    + apply Nat.leb_gt in E2. split; [lia | reflexivity].
  - apply Nat.leb_gt in E1. split; [lia|]. intros _.
    destruct (randomBytes _ p) as [r2 p2]. reflexivity.
Qed.

Lemma generation_succeeds_witness :
  validate sized_options = None
  /\ exists key,
       generateAPIKey sized_options (pool_ff 32) = (Ok key, skipn 30 (pool_ff 32)).
Proof.
  split; [reflexivity|].
  refine (proj1 (generation_succeeds sized_options (pool_ff 32) eq_refl _ _) _).
  - right. eexists; reflexivity.
  - right. eexists; reflexivity.
  - vm_compute. repeat constructor.
Defined.

Module EncodeFacts.

Lemma get_some (s : string) (n : nat) :
  (n < String.length s)%nat -> exists c, String.get n s = Some c.
Proof.
  revert n; induction s as [|d s IH]; intros n H; simpl in H; [lia|].
  destruct n as [|n]; simpl; [now exists d | apply IH; lia].
Qed.

Lemma length_charAt (d : Z) :
  is_digit58 d -> String.length (Bs58.charAt d) = 1%nat.
Proof.
  unfold is_digit58, Bs58.BASE, Bs58.charAt. intros H.
  replace (d <? 0) with false by (symmetry; apply Z.ltb_ge; lia).
  destruct (get_some Bs58.ALPHABET (Z.to_nat d)) as [c ->]; [|reflexivity].
  change (String.length Bs58.ALPHABET) with 58%nat. lia.
Qed.

Lemma length_translate (b58 : list Z) :
  Forall is_digit58 b58 ->
  String.length (Bs58.translate b58) = List.length b58.
Proof.
  induction 1 as [|d ds Hd F IH]; [reflexivity|].
  cbn [Bs58.translate List.length].
  now rewrite length_append, (length_charAt d Hd), IH.
Qed.

(** The leading zero bytes are counted and what is left does not start with
    a zero byte. *)
Lemma skip_zeroes_spec (source : list byte) :
  List.length source
  = (fst (Bs58.skip_zeroes source) + List.length (snd (Bs58.skip_zeroes source)))%nat
  /\ (snd (Bs58.skip_zeroes source) = []
      \/ exists b rest, snd (Bs58.skip_zeroes source) = b :: rest
                        /\ 1 <= Bs58.byte_value b).
Proof.
  induction source as [|b rest [IHl IHt]]; [split; [reflexivity | now left]|].
  destruct b;
    try (split; [reflexivity | right; eexists _, _; split;
                                [reflexivity | vm_compute; discriminate]]).
  cbn [Bs58.skip_zeroes].
  destruct (Bs58.skip_zeroes rest) as [z tail]. simpl in *.
  split; [lia | exact IHt].
Qed.

Lemma value256_acc (source : list byte) (v : Z) :
  fold_left (fun v ch => 256 * v + Bs58.byte_value ch) source v
  = v * 256 ^ Z.of_nat (List.length source) + value256 source.
Proof.
  unfold value256. revert v; induction source as [|b rest IH]; intros v.
  - cbn [fold_left List.length]. change (256 ^ Z.of_nat 0) with 1. lia.
  - cbn [fold_left List.length].
    rewrite IH, (IH (256 * 0 + Bs58.byte_value b)).
    rewrite Nat2Z.inj_succ, Z.pow_succ_r by lia. ring.
Qed.

Lemma value256_cons (b : byte) (rest : list byte) :
  value256 (b :: rest)
  = Bs58.byte_value b * 256 ^ Z.of_nat (List.length rest) + value256 rest.
Proof.
  unfold value256 at 1. cbn [fold_left]. rewrite value256_acc. ring.
Qed.

Lemma value256_range (source : list byte) :
  0 <= value256 source < 256 ^ Z.of_nat (List.length source).
Proof.
  induction source as [|b rest IH].
  - unfold value256; simpl. lia.
  - rewrite value256_cons. cbn [List.length].
    rewrite Nat2Z.inj_succ, Z.pow_succ_r by lia.
    pose proof (byte_value_range b). nia.
Qed.

Lemma value58_upper (b58 : list Z) :
  Forall is_digit58 b58 ->
  0 <= value58 b58 < 58 ^ Z.of_nat (List.length b58).
Proof.
  induction 1 as [|d ds Hd F IH].
  - change (value58 []) with 0. simpl. lia.
  - rewrite value58_cons. cbn [List.length].
    rewrite Nat2Z.inj_succ, Z.pow_succ_r by lia.
    unfold is_digit58, Bs58.BASE in Hd. nia.
Qed.

Lemma value58_lower (b58 : list Z) :
  Forall is_digit58 b58 -> b58 <> [] -> last b58 1 <> 0 ->
  58 ^ (Z.of_nat (List.length b58) - 1) <= value58 b58.
Proof.
  induction 1 as [|d ds Hd F IH]; intros NE L; [contradiction|].
  rewrite value58_cons. unfold is_digit58, Bs58.BASE in Hd.
  destruct ds as [|e ds'].
  - change (value58 []) with 0. simpl in *. lia.
  - assert (I : 58 ^ (Z.of_nat (List.length (e :: ds')) - 1) <= value58 (e :: ds'))
      by (apply IH; [discriminate | exact L]).
    cbn [List.length] in *. rewrite !Nat2Z.inj_succ in *.
    replace (Z.succ (Z.succ (Z.of_nat (List.length ds'))) - 1)
      with (Z.succ (Z.succ (Z.of_nat (List.length ds')) - 1)) by lia.
    rewrite Z.pow_succ_r by lia. lia.
Qed.

(** A step of the encoder keeps the most significant digit non-zero. *)
Lemma mul_add_normal (b58 : list Z) (carry : Z) :
  0 <= carry -> Forall is_digit58 b58 -> last b58 1 <> 0 ->
  last (Bs58.mul_add b58 carry) 1 <> 0.
Proof.
  intros C F; revert carry C; induction F as [|d ds Hd F IH]; intros carry C L;
    cbn [Bs58.mul_add]; unfold Bs58.BASE.
  - destruct (carry =? 0) eqn:E0; [simpl; lia|]. apply Z.eqb_neq in E0.
    destruct (carry <? 58) eqn:E1; simpl; [exact E0|].
    apply Z.ltb_ge in E1.
    assert (1 <= carry / 58) by (apply Z.div_le_lower_bound; lia). lia.
  - unfold is_digit58, Bs58.BASE in Hd.
    assert (C' : 0 <= (carry + 256 * d) / 58) by (apply Z.div_pos; lia).
    destruct ds as [|e ds'].
    + simpl in L.
      assert (4 <= (carry + 256 * d) / 58)
        by (apply Z.div_le_lower_bound; lia).
      cbn [Bs58.mul_add]. unfold Bs58.BASE.
      set (c := (carry + 256 * d) / 58) in *.
      replace (c =? 0) with false by (symmetry; apply Z.eqb_neq; lia).
      destruct (c <? 58) eqn:E1; simpl; [lia|].
      apply Z.ltb_ge in E1.
      assert (1 <= c / 58) by (apply Z.div_le_lower_bound; lia). lia.
    + specialize (IH _ C' L). cbn [Bs58.mul_add] in *.
      exact IH.
Qed.

(** The digits of the encoder: each below 58, the most significant one not
    zero. *)
Lemma digits_normal (source : list byte) :
  Forall is_digit58 (Bs58.digits source) /\ last (Bs58.digits source) 1 <> 0.
Proof.
  unfold Bs58.digits.
  assert (G : forall b58,
             Forall is_digit58 b58 -> last b58 1 <> 0 ->
             Forall is_digit58
               (fold_left (fun b58 ch => Bs58.mul_add b58 (Bs58.byte_value ch))
                          source b58)
             /\ last (fold_left (fun b58 ch => Bs58.mul_add b58 (Bs58.byte_value ch))
                                source b58) 1 <> 0).
  { induction source as [|ch rest IH]; intros b58 F L; cbn [fold_left];
      [now split|].
    pose proof (byte_value_range ch) as R.
    apply IH.
    - now apply mul_add_digits.
    - apply mul_add_normal; [lia | exact F | exact L]. }
  apply G; [constructor | simpl; lia].
Qed.

(** Bytes that do not start with a zero byte have at least as many base-58
    digits as there are bytes. *)
Lemma digits_length_lower (b : byte) (rest : list byte) :
  1 <= Bs58.byte_value b ->
  (List.length (b :: rest) <= List.length (Bs58.digits (b :: rest)))%nat.
Proof.
  intros H.
  destruct (digits_spec (b :: rest)) as [V F].
  pose proof (value58_upper _ F) as U. rewrite V, value256_cons in U.
  pose proof (value256_range rest) as R.
  assert (P : 58 ^ Z.of_nat (List.length rest) <= 256 ^ Z.of_nat (List.length rest))
    by (apply Z.pow_le_mono_l; lia).
  assert (Q : 58 ^ Z.of_nat (List.length rest)
              < 58 ^ Z.of_nat (List.length (Bs58.digits (b :: rest)))) by nia.
  apply Z.pow_lt_mono_r_iff in Q; [|lia|lia].
  cbn [List.length]. lia.
Qed.

Lemma length_encode (source : list byte) :
  String.length (Bs58.encode source)
  = (fst (Bs58.skip_zeroes source)
     + List.length (Bs58.digits (snd (Bs58.skip_zeroes source))))%nat.
Proof.
  unfold Bs58.encode. destruct (Bs58.skip_zeroes source) as [z tail].
  cbn [fst snd]. rewrite length_append, length_repeat, length_translate.
  - now rewrite length_rev.
  - apply Forall_rev, digits_normal.
Qed.

(** The encoding of [n] bytes has at least [n] characters, and at most [N]
    when 256 ^ n < 58 ^ N. *)
Lemma encode_length (source : list byte) :
  (List.length source <= String.length (Bs58.encode source))%nat
  /\ forall N : nat,
       256 ^ Z.of_nat (List.length source) < 58 ^ Z.of_nat N ->
       (String.length (Bs58.encode source) <= N)%nat.
Proof.
  rewrite length_encode.
  destruct (skip_zeroes_spec source) as [L T].
  destruct (Bs58.skip_zeroes source) as [z tail]. cbn [fst snd] in *.
  split.
  - destruct T as [-> | (b & rest & -> & Hb)]; [simpl in *; lia|].
    pose proof (digits_length_lower b rest Hb). lia.
  - intros N H. rewrite L in H.
    destruct (digits_normal tail) as [F NL].
    destruct (digits_spec tail) as [V _].
    pose proof (value256_range tail) as R.
    assert (P58 : 0 < 58 ^ Z.of_nat z) by (apply Z.pow_pos_nonneg; lia).
    assert (PZ : 58 ^ Z.of_nat z <= 256 ^ Z.of_nat z)
      by (apply Z.pow_le_mono_l; lia).
    rewrite Nat2Z.inj_add, Z.pow_add_r in H by lia.
    destruct (Bs58.digits tail) as [|d ds] eqn:D.
    + assert (Q : 58 ^ Z.of_nat z < 58 ^ Z.of_nat N) by nia.
      apply Z.pow_lt_mono_r_iff in Q; simpl; lia.
    + pose proof (value58_lower (d :: ds) F ltac:(discriminate) NL) as W.
      rewrite V in W.
      assert (Q : 58 ^ (Z.of_nat z + (Z.of_nat (List.length (d :: ds)) - 1))
                  < 58 ^ Z.of_nat N).
      { rewrite Z.pow_add_r by (cbn [List.length]; lia).
        assert (0 < 58 ^ (Z.of_nat (List.length (d :: ds)) - 1))
          by (apply Z.pow_pos_nonneg; cbn [List.length]; lia).
        nia. }
      apply Z.pow_lt_mono_r_iff in Q; [|lia|lia]. lia.
Qed.

End EncodeFacts.

Import EncodeFacts.

(** Nothing is prepended when the string is at least as long as asked. *)
Lemma padStart_long_enough (s : string) (v : JS.value) (c : ascii) :
  Lodash.toInteger v <= Z.of_nat (String.length s) -> Lodash.padStart s v c = s.
Proof.
  intros H. unfold Lodash.padStart.
  destruct (Lodash.toInteger v =? 0); [reflexivity|]. simpl negb.
  replace (Z.of_nat (String.length s) <? Lodash.toInteger v) with false
    by (symmetry; apply Z.ltb_ge; lia).
  reflexivity.
Qed.

(** The encoding of drawn bytes is never shorter than the length option
    asks for. *)
Lemma drawn_long_enough (length : JS.value) (d : Z) (p : pool)
      (bytes : list byte) (p' : pool) :
  randomBytes (JS.nullish_or length (JS.num d)) p = (Ok bytes, p') ->
  Lodash.toInteger length <= Z.of_nat (String.length (Bs58.encode bytes)).
Proof.
  intros D. apply randomBytes_Ok in D as (q & E & Hq & L & _).
  pose proof (proj1 (encode_length bytes)) as B.
  destruct length as [| |b|[|neg|q']|s|props]; simpl in E; try discriminate E;
    try (unfold Lodash.toInteger; simpl; lia).
  injection E as <-. rewrite toInteger_num. lia.
Qed.

(** X12: the pad character is never used: in every generated key the
    encoded bytes are only truncated, the long token is made of characters
    of the base-58 alphabet alone (the character 0 is not one of them), and
    with a numeric length option a token is the beginning of the encoding
    (after the prefix, for the short token). *)
Theorem never_padded (options : JS.value) (p : pool) (key : APIKey.t)
        (p' : pool) :
  generateAPIKey options p = (Ok key, p') ->
  exists shortTokenBytes longTokenBytes,
    p = (shortTokenBytes ++ longTokenBytes ++ p')%list
    /\ APIKey.longToken key
       = JS.String_slice (Bs58.encode longTokenBytes) 0
                         (JS.get options "longTokenLength")
    /\ APIKey.shortToken key
       = JS.String_slice
           (short_prefix options
            ++ JS.String_slice (Bs58.encode shortTokenBytes) 0
                               (JS.get options "shortTokenLength"))
           0 (JS.get options "shortTokenLength")
    /\ (forall q, JS.get options "longTokenLength" = JS.VNum (JS.Finite q) ->
                  APIKey.longToken key
                  = Str.take (Z.to_nat (JS.trunc q)) (Bs58.encode longTokenBytes))
    /\ Str.forallb is_base58 (APIKey.longToken key) = true
    /\ is_base58 "0" = false.
Proof.
  intros G.
  apply generateAPIKey_Ok in G as (_ & _ & sb & lb & D1 & D2 & E & ->).
  pose proof (drawn_long_enough _ _ _ _ _ D1) as L1.
  pose proof (drawn_long_enough _ _ _ _ _ D2) as L2.
  assert (EL : APIKey.longToken (assemble options sb lb)
               = JS.String_slice (Bs58.encode lb) 0
                                 (JS.get options "longTokenLength")).
  { simpl. unfold normalise. now rewrite padStart_long_enough. }
  exists sb, lb. split; [exact E|]. split; [exact EL|]. split; [|split; [|split]].
  - simpl. unfold normalise. now rewrite padStart_long_enough.
  - intros q Eq. rewrite EL, Eq. apply String_slice_num.
    apply drawn_count in D2 as [_ N]. now destruct (N q Eq).
  - rewrite EL.
    destruct (String_slice_take (Bs58.encode lb)
                                (JS.get options "longTokenLength")) as [k ->].
    apply forallb_take. now apply encode_forallb.
  - reflexivity.
Qed.

Lemma never_padded_witness :
  generateAPIKey sized_options (pool_ff 32) = (Ok sized_key, pool_ff 2)
  /\ Str.forallb is_base58 (APIKey.longToken sized_key) = true.
Proof.
  assert (G : generateAPIKey sized_options (pool_ff 32)
              = (Ok sized_key, pool_ff 2)) by (vm_compute; reflexivity).
  split; [exact G|].
  destruct (never_padded _ _ _ _ G) as (sb & lb & _ & _ & _ & _ & B & _).
  exact B.
Defined.

(** X13: with [shortTokenLength] omitted the short token has, after its
    prefix, from 8 to 11 characters; with [longTokenLength] omitted the long
    token has from 24 to 33 characters. *)
Theorem default_length_bounds (options : JS.value) (p : pool) (key : APIKey.t)
        (p' : pool) :
  generateAPIKey options p = (Ok key, p') ->
  (JS.get options "shortTokenLength" = JS.VUndefined ->
   (String.length (short_prefix options) + 8
    <= String.length (APIKey.shortToken key)
    <= String.length (short_prefix options) + 11)%nat)
  /\ (JS.get options "longTokenLength" = JS.VUndefined ->
      (24 <= String.length (APIKey.longToken key) <= 33)%nat).
Proof.
  intros G.
  apply generateAPIKey_Ok in G as (_ & _ & sb & lb & D1 & D2 & _ & ->).
  apply drawn_count in D1 as [U1 _]. apply drawn_count in D2 as [U2 _].
  split; intros E; simpl; rewrite E.
  - specialize (U1 E). rewrite normalise_undefined, String_slice_undefined.
    rewrite length_append.
    destruct (encode_length sb) as [Lo Hi]. rewrite U1 in Lo, Hi.
    specialize (Hi 11%nat eq_refl). change (Z.to_nat 8) with 8%nat in Lo. lia.
  - specialize (U2 E). rewrite normalise_undefined.
    destruct (encode_length lb) as [Lo Hi]. rewrite U2 in Lo, Hi.
    specialize (Hi 33%nat eq_refl). change (Z.to_nat 24) with 24%nat in Lo. lia.
Qed.

Lemma default_length_bounds_witness :
  generateAPIKey (options_of []) (pool_ff 32) = (Ok default_key, [])
  /\ (24 <= String.length (APIKey.longToken default_key) <= 33)%nat.
Proof.
  assert (G : generateAPIKey (options_of []) (pool_ff 32) = (Ok default_key, []))
    by (vm_compute; reflexivity).
  split; [exact G|].
  exact (proj2 (default_length_bounds _ _ _ _ G) eq_refl).
Defined.
